(** * Resumable chunked streaming reader and the VDiff2 fan-out

    A shallow embedding of
      - go/vt/worker/restartable_result_reader.go
      - go/vt/wrangler/vdiff2.go
    and the properties of the query synthesizer, of the retry and failover
    protocol, and of the per-shard fan-out. *)

From Stdlib Require Import ZArith String List Lia.
From stdpp Require Import base option list strings gmap.

(** ** SQL primitives

    [sqltypes.Value] and [sqlescape.EscapeID] live in other packages.  The
    reader needs three capabilities of them, which are kept abstract: the
    null test of a value ([IsNull]), its SQL literal ([EncodeSQL], which
    writes to a builder in the source and returns the text here), and the
    escaping of an identifier. *)

Class SqlPrimitives := {
  Value : Type;
  IsNull : Value -> bool;
  EncodeSQL : Value -> string;
  EscapeID : string -> string
}.

(** [strings.Join(elems, sep)]. *)
Definition Join (elems : list string) (sep : string) : string :=
  String.concat sep elems.

(** [tabletmanagerdatapb.TableDefinition], the fields the reader uses. *)
Record TableDefinition := mkTableDefinition {
  Name : string;
  Columns : list string;
  PrimaryKeyColumns : list string
}.

Section QuerySynthesis.
Context `{Sql : SqlPrimitives}.

(** A Go slice of values can be [nil]: [None] is the nil slice, [Some l]
    a non-nil slice with elements [l]. *)
Definition Row : Type := option (list Value).

(** The [chunk] struct of the worker package: the two bounds of the scan. *)
Record chunk := mkChunk {
  chunk_start : Value;
  chunk_end : Value
}.

(** Modelled from the spec: [escapeAll] is declared in another file of the
    worker package; the spec's rule is that each identifier of the list is
    identifier-escaped. *)
Definition escapeAll (identifiers : list string) : list string :=
  map EscapeID identifiers.

(** The [for i := 0; i < len(columns); i++] loop of
    [greaterThanTupleWhereClause], over the indices [idx], appending to the
    builder [b].  [None] is the index-out-of-range panic of [row[i]]. *)
Fixpoint writeValues (row : list Value) (idx : list nat) (b : string)
  : option string :=
  match idx with
  | [] => Some b
  | i :: idx' =>
      let b := if Nat.eqb i 0 then b else b +:+ "," in
      match row !! i with
      | None => None
      | Some v => writeValues row idx' (b +:+ EncodeSQL v)
      end
  end.

Definition paren (multi : bool) (p : string) : string :=
  if multi then p else "".

(** [greaterThanTupleWhereClause(columns, row)]; [None] when an index is
    out of range. *)
Definition greaterThanTupleWhereClause (columns : list string)
    (row : list Value) : option (list string) :=
  let multi := Nat.ltb 1 (length columns) in
  (* Additional clause on the first column for multi-columns. *)
  clauses ← (if multi then
               c0 ← columns !! 0;
               v0 ← row !! 0;
               Some [EscapeID c0 +:+ ">=" +:+ EncodeSQL v0]
             else Some []);
  (* List of columns, then the operator. *)
  let b := paren multi "(" +:+ Join (escapeAll columns) ","
           +:+ paren multi ")" +:+ ">" +:+ paren multi "(" in
  (* List of values. *)
  b ← writeValues row (seq 0 (length columns)) b;
  Some (clauses ++ [b +:+ paren multi ")"]).

Definition selectFrom (td : TableDefinition) : string :=
  "SELECT " +:+ Join (escapeAll (Columns td)) "," +:+ " FROM "
  +:+ EscapeID (Name td).

(** The chunk-start term [pk[0] >= start] and the upper bound
    [pk[0] < end]. *)
Definition boundClause (pk0 op : string) (v : Value) : string :=
  EscapeID pk0 +:+ op +:+ EncodeSQL v.

(** [generateQuery]: the text assigned to [r.query]; [None] when
    [PrimaryKeyColumns[0]] or a value of the last row is out of range. *)
Definition generateQuery (td : TableDefinition) (c : chunk) (lastRow : Row)
  : option string :=
  let query := selectFrom td in
  (* start value. *)
  clauses ← match lastRow with
            | None =>
                if negb (IsNull (chunk_start c)) then
                  pk0 ← PrimaryKeyColumns td !! 0;
                  Some [boundClause pk0 ">=" (chunk_start c)]
                else Some []
            | Some row =>
                greaterThanTupleWhereClause (PrimaryKeyColumns td) row
            end;
  (* end value. *)
  clauses ← (if negb (IsNull (chunk_end c)) then
               pk0 ← PrimaryKeyColumns td !! 0;
               Some (clauses ++ [boundClause pk0 "<" (chunk_end c)])
             else Some clauses);
  let query := if Nat.ltb 0 (length clauses)
               then query +:+ " WHERE " +:+ Join clauses " AND "
               else query in
  let query := if Nat.ltb 0 (length (PrimaryKeyColumns td))
               then query +:+ " ORDER BY "
                    +:+ Join (escapeAll (PrimaryKeyColumns td)) ","
               else query in
  Some query.

End QuerySynthesis.

(** A sample instance of the SQL primitives, to run the definitions on
    concrete inputs: integer and text values, text literals between single
    quotes, identifiers between backquotes. *)
Module Sample.

Inductive value :=
| VNull
| VInt (digits : string)
| VText (s : string).

#[global] Instance sql : SqlPrimitives := {|
  Value := value;
  IsNull := fun v => match v with VNull => true | _ => false end;
  EncodeSQL := fun v =>
    match v with
    | VNull => "null"
    | VInt d => d
    | VText s => "'" +:+ s +:+ "'"
    end;
  EscapeID := fun id => "`" +:+ id +:+ "`"
|}.

End Sample.

(** ** Errors, tablets and results *)

(** Go's [error] values.  [None] of [option error] is the nil error.  The
    message of a wrapped error is kept without its formatted arguments. *)
Inductive error :=
| io_EOF
| context_DeadlineExceeded
| context_Canceled
| Failure (msg : string)             (* an error raised by a collaborator *)
| Wrap (cause : error) (msg : string). (* vterrors.Wrap and vterrors.Wrapf *)

(** [err == io.EOF] and [err == context.DeadlineExceeded] compare with the
    sentinel value itself; a wrapped sentinel is a different value. *)
Definition is_EOF (e : error) : bool :=
  match e with io_EOF => true | _ => false end.

Definition is_DeadlineExceeded (e : error) : bool :=
  match e with context_DeadlineExceeded => true | _ => false end.

(** [topodatapb.Tablet], the fields that are read. *)
Record Tablet := mkTablet {
  Alias : string;
  Keyspace : string;
  Shard : string;
  Type_ : nat
}.

(** Handles of the connections the dialer opens and of the streams the
    query service starts. *)
Definition Conn : Type := nat.
Definition Stream : Type := nat.

(** The calls the reader makes to its collaborators, in the order it makes
    them.  Log lines and statistics counters are left out. *)
Inductive Event :=
| EvTpGetTablet                                   (* r.tp.getTablet() *)
| EvDial (t : Tablet)                             (* tabletconn.GetDialer()(tablet, ..) *)
| EvExecute (c : Conn) (t : Tablet) (query : string) (txID : Z) (s : Stream)
    (* queryservice.ExecuteWithStreamer when txID = 0,
       queryservice.ExecuteWithTransactionalStreamer otherwise *)
| EvRecv (s : Stream)                             (* stream.Recv() *)
| EvConnClose (c : Conn)                          (* r.conn.Close(ctx) *)
| EvReturnTablet (t : option Tablet)              (* r.tp.returnTablet(r.tablet) *)
| EvSelect.                                       (* the select of the retry loop *)

(** What the select statement of the retry loop observes first. *)
Inductive SelectResult :=
| TimerFired                 (* <-time.After( *executeFetchRetryTime ) *)
| CtxDone (err : error).     (* <-retryCtx.Done(), with retryCtx.Err() *)

(** The world outside the reader: the calls made so far, and how many
    calls of each kind, which is the position in the answers of [Env]. *)
Record World := mkWorld {
  trace : list Event;
  n_getTablet : nat;
  n_dial : nat;
  n_stream : nat;
  n_recv : nat;
  n_select : nat
}.

Definition world0 : World := mkWorld [] 0 0 0 0 0.

Definition record (ev : Event) (w : World) : list Event := trace w ++ [ev].

Section Reader.
Context `{Sql : SqlPrimitives}.

(** [sqltypes.Result], the fields that are read. *)
Record Result := mkResult {
  Fields : list string;
  Rows : list Row
}.

(** The answers of the collaborators: the [i]-th call of each kind gets
    the [i]-th answer.  Every behaviour of the tablet provider, of the
    dialer, of the streams and of the retry context that one run of the
    reader can meet is such a family of answers. *)
Record Env := mkEnv {
  tp_getTablet : nat -> Tablet + error;
  dialer : nat -> Tablet -> Conn + error;
  stream_Recv : nat -> option Result * option error;
  retryCtx_select : nat -> SelectResult
}.

Record RestartableResultReader := mkReader {
  td : TableDefinition;
  rchunk : chunk;
  allowMultipleRetries : bool;
  txID : Z;
  query : string;
  tablet : option Tablet;
  conn : option Conn;
  fields : list string;
  output : option Stream;
  lastRow : Row
}.

Definition set_query (q : string) (r : RestartableResultReader) :=
  mkReader (td r) (rchunk r) (allowMultipleRetries r) (txID r) q
    (tablet r) (conn r) (fields r) (output r) (lastRow r).

Definition set_tablet_conn (t : option Tablet) (c : option Conn)
    (r : RestartableResultReader) :=
  mkReader (td r) (rchunk r) (allowMultipleRetries r) (txID r) (query r)
    t c (fields r) (output r) (lastRow r).

Definition set_fields_output (f : list string) (o : option Stream)
    (r : RestartableResultReader) :=
  mkReader (td r) (rchunk r) (allowMultipleRetries r) (txID r) (query r)
    (tablet r) (conn r) f o (lastRow r).

Definition set_lastRow (row : Row) (r : RestartableResultReader) :=
  mkReader (td r) (rchunk r) (allowMultipleRetries r) (txID r) (query r)
    (tablet r) (conn r) (fields r) (output r) row.

(** *** The monad of the reader's methods

    A method runs on the reader it is called on and on the world, and
    either returns, panics (nil dereference, index out of range) or is
    still looping when the fuel of its loop is used up. *)
Inductive outcome (A : Type) :=
| Done (a : A) (r : RestartableResultReader) (w : World)
| Panic
| OutOfFuel.
Arguments Done {A} a r w.
Arguments Panic {A}.
Arguments OutOfFuel {A}.

Definition M (A : Type) : Type :=
  RestartableResultReader -> World -> outcome A.

#[local] Instance M_ret : MRet M := fun A a r w => Done a r w.

#[local] Instance M_bind : MBind M := fun A B f m r w =>
  match m r w with
  | Done a r' w' => f a r' w'
  | Panic => Panic
  | OutOfFuel => OutOfFuel
  end.

Definition get : M RestartableResultReader := fun r w => Done r r w.
Definition modify (f : RestartableResultReader -> RestartableResultReader)
  : M unit := fun r w => Done tt (f r) w.
Definition panic {A} : M A := fun _ _ => Panic.
Definition outOfFuel {A} : M A := fun _ _ => OutOfFuel.

(** Dereference of a pointer or call through an interface value. *)
Definition deref {A} (p : option A) : M A :=
  match p with
  | Some a => mret a
  | None => panic
  end.

Variable env : Env.

(** *** Calls to the collaborators *)

Definition call_tp_getTablet : M (Tablet + error) := fun r w =>
  Done (tp_getTablet env (n_getTablet w)) r
    (mkWorld (record EvTpGetTablet w) (S (n_getTablet w)) (n_dial w)
       (n_stream w) (n_recv w) (n_select w)).

Definition call_dial (t : Tablet) : M (Conn + error) := fun r w =>
  Done (dialer env (n_dial w) t) r
    (mkWorld (record (EvDial t) w) (n_getTablet w) (S (n_dial w))
       (n_stream w) (n_recv w) (n_select w)).

Definition call_Execute (c : Conn) (t : Tablet) (q : string) (tx : Z)
  : M Stream := fun r w =>
  Done (n_stream w) r
    (mkWorld (record (EvExecute c t q tx (n_stream w)) w) (n_getTablet w)
       (n_dial w) (S (n_stream w)) (n_recv w) (n_select w)).

Definition call_Recv (s : Stream) : M (option Result * option error) :=
  fun r w =>
  Done (stream_Recv env (n_recv w)) r
    (mkWorld (record (EvRecv s) w) (n_getTablet w) (n_dial w) (n_stream w)
       (S (n_recv w)) (n_select w)).

Definition call_select : M SelectResult := fun r w =>
  Done (retryCtx_select env (n_select w)) r
    (mkWorld (record EvSelect w) (n_getTablet w) (n_dial w) (n_stream w)
       (n_recv w) (S (n_select w))).

Definition emit (ev : Event) : M unit := fun r w =>
  Done tt r
    (mkWorld (record ev w) (n_getTablet w) (n_dial w) (n_stream w)
       (n_recv w) (n_select w)).

(** *** Methods of the reader *)

(** [Close]. *)
Definition Close : M unit :=
  r ← get;
  match conn r with
  | Some c =>
      _ ← emit (EvConnClose c);
      emit (EvReturnTablet (tablet r))
  | None => mret tt
  end.

(** [Fields]. *)
Definition Fields_ (r : RestartableResultReader) : list string := fields r.

(** [getTablet]: the pair is (retryable, err). *)
Definition getTablet : M (bool * option error) :=
  r ← get;
  _ ← match tablet r with
      | Some _ =>
          (* If there was a tablet before, return it to the tabletProvider. *)
          _ ← Close;
          _ ← modify (set_tablet_conn None None);
          modify (set_fields_output [] None)
      | None => mret tt
      end;
  (* Get a tablet from the tablet provider. *)
  res ← call_tp_getTablet;
  match res with
  | inr err =>
      mret (true, Some (Wrap err "failed get tablet for streaming query"))
  | inl t =>
      (* Connect (dial) to the tablet. *)
      res ← call_dial t;
      match res with
      | inr err =>
          mret (false, Some (Wrap err "failed to get dialer for tablet"))
      | inl c =>
          _ ← modify (set_tablet_conn (Some t) (Some c));
          mret (false, None)
      end
  end.

(** [r.generateQuery()]. *)
Definition generateQuery_ : M unit :=
  r ← get;
  q ← deref (generateQuery (td r) (rchunk r) (lastRow r));
  modify (set_query q).

(** [startStream]: the pair is (retryable, err). *)
Definition startStream : M (bool * option error) :=
  (* Start the streaming query. *)
  _ ← generateQuery_;
  r ← get;
  t ← deref (tablet r);
  c ← deref (conn r);
  stream ← call_Execute c t (query r) (txID r);
  (* Read the fields information. *)
  '(cols, err) ← call_Recv stream;
  match err with
  | Some e => mret (true, Some (Wrap e "cannot read Fields for query"))
  | None =>
      cols ← deref cols;
      _ ← modify (set_fields_output (Fields cols) (Some stream));
      mret (false, None)
  end.

(** One iteration of the loop of [tryToConnect], up to the [retry] label:
    [None] is [return nil], [Some (retryable, err)] is [goto retry]. *)
Definition tryToConnect_attempt : M (option (bool * error)) :=
  '(retryable, err) ← getTablet;
  match err with
  | Some e => mret (Some (retryable, Wrap e "tablet=unknown"))
  | None =>
      '(retryable, err) ← startStream;
      match err with
      | Some e =>
          r ← get;
          _ ← deref (tablet r);
          mret (Some (retryable, Wrap e "tablet=%v"))
      | None => mret None
      end
  end.

(** The [for] loop of [tryToConnect]; [attempt] is the counter before the
    iteration. *)
Fixpoint tryToConnect_loop (fuel attempt : nat) : M (option error) :=
  match fuel with
  | 0 => outOfFuel
  | S fuel =>
      let attempt := attempt + 1 in
      res ← tryToConnect_attempt;
      match res with
      | None => mret None
      | Some (retryable, err) =>
          if negb retryable || Nat.ltb 1 attempt then
            mret (Some (Wrap err "failed to initialize tablet connection"))
          else tryToConnect_loop fuel attempt
      end
  end.

Definition tryToConnect (fuel : nat) : M (option error) :=
  tryToConnect_loop fuel 0.

(** The body the two constructors share, from [err := tryToConnect(r)] on:
    [return nil, err] or [return r, nil]. *)
Definition construct (fuel : nat) (r : RestartableResultReader)
  : World -> outcome (option RestartableResultReader * option error) :=
  fun w =>
  match tryToConnect fuel r w with
  | Done (Some err) r' w' => Done (None, Some err) r' w'
  | Done None r' w' => Done (Some r', None) r' w'
  | Panic => Panic
  | OutOfFuel => OutOfFuel
  end.

(** [NewRestartableResultReader]: the first component of the result is
    the reader handed to the caller, [None] for nil. *)
Definition NewRestartableResultReader (fuel : nat) (td : TableDefinition)
    (c : chunk) (allowMultipleRetries : bool) :=
  construct fuel
    (mkReader td c allowMultipleRetries 0%Z "" None None [] None None).

(** [NewTransactionalRestartableResultReader]. *)
Definition NewTransactionalRestartableResultReader (fuel : nat)
    (td : TableDefinition) (c : chunk) (allowMultipleRetries : bool)
    (txID : Z) :=
  construct fuel
    (mkReader td c allowMultipleRetries txID "" None None [] None None).

(** What one iteration of the loop of [nextWithRetries] ends with. *)
Inductive AttemptResult :=
| AReturn (result : option Result) (err : option error)  (* return *)
| ARetry (err : error).                                  (* goto retry *)

(** One iteration of the loop of [nextWithRetries], up to the [retry]
    label. *)
Definition nextWithRetries_attempt (attempt : nat) : M AttemptResult :=
  failover ← (if Nat.ltb 2 attempt then
                (* Do not failover to a different tablet at the 2nd
                   attempt, but always after that. *)
                '(retryable, err) ← getTablet;
                match err with
                | Some e =>
                    if negb retryable then mret (Some (AReturn None (Some e)))
                    else mret (Some (ARetry e))
                | None => mret None
                end
              else mret None);
  match failover with
  | Some a => mret a
  | None =>
      restart ← (if Nat.ltb 1 attempt then
                   (* Restart streaming query. *)
                   '(retryable, err) ← startStream;
                   match err with
                   | Some e =>
                       if negb retryable then
                         r ← get;
                         _ ← deref (tablet r);
                         mret (Some (AReturn None (Some e)))
                       else mret (Some (ARetry e))
                   | None => mret None
                   end
                 else mret None);
      match restart with
      | Some a => mret a
      | None =>
          r ← get;
          out ← deref (output r);
          '(result, err) ← call_Recv out;
          match err with
          | None =>
              r ← get;
              _ ← deref (tablet r);
              mret (AReturn result None)
          | Some e =>
              if is_EOF e then
                r ← get;
                _ ← deref (tablet r);
                mret (AReturn result (Some e))
              else mret (ARetry e)
          end
      end
  end.

(** The [for] loop of [nextWithRetries]; [attempt] is the counter before
    the iteration. *)
Fixpoint nextWithRetries_loop (fuel attempt : nat)
  : M (option Result * option error) :=
  match fuel with
  | 0 => outOfFuel
  | S fuel =>
      let attempt := attempt + 1 in
      a ← nextWithRetries_attempt attempt;
      match a with
      | AReturn result err => mret (result, err)
      | ARetry err =>
          r ← get;
          if Nat.eqb attempt 2 && negb (allowMultipleRetries r) then
            (* Offline source tablets must not be retried forever. *)
            mret (None, Some (Wrap err
              "first retry to restart the streaming query on the same tablet failed"))
          else
            sel ← call_select;
            match sel with
            | CtxDone err =>
                if is_DeadlineExceeded err then
                  mret (None, Some (Wrap err
                    "failed to restart the streaming connection after retrying"))
                else
                  mret (None, Some (Wrap err
                    "interrupted while trying to restart the streaming connection"))
            | TimerFired =>
                (* Make a pause between the retries. *)
                nextWithRetries_loop fuel attempt
            end
      end
  end.

(** [nextWithRetries]: the first retry is the second attempt. *)
Definition nextWithRetries (fuel : nat)
  : M (option Result * option error) :=
  nextWithRetries_loop fuel 1.

(** [Next]. *)
Definition Next (fuel : nat) : M (option Result * option error) :=
  r ← get;
  out ← deref (output r);
  '(result, err) ← call_Recv out;
  '(result, err) ← match err with
                   | Some e =>
                       if negb (is_EOF e) then
                         r ← get;
                         _ ← deref (tablet r);
                         nextWithRetries fuel
                       else mret (result, err)
                   | None => mret (result, err)
                   end;
  _ ← match result with
      | Some res =>
          if Nat.ltb 0 (length (Rows res)) then
            row ← deref (Rows res !! (length (Rows res) - 1));
            modify (set_lastRow row)
          else mret tt
      | None => mret tt
      end;
  mret (result, err).

End Reader.

Arguments Done {Sql A} a r w.
Arguments Panic {Sql A}.
Arguments OutOfFuel {Sql A}.

#[global] Existing Instances M_ret M_bind.

(** ** The VDiff2 fan-out of the wrangler *)

Section VDiff.
(** The protobuf messages [tabletmanagerdata.VDiffOptions] and
    [tabletmanagerdata.VDiffResponse] are declared in another package. *)
Variables VDiffOptions VDiffResponse : Type.

(** [tabletmanagerdata.VDiffRequest]. *)
Record VDiffRequest := mkVDiffRequest {
  req_Keyspace : string;
  req_Workflow : string;
  req_Command : string;
  req_SubCommand : string;
  req_Options : option VDiffOptions;
  req_VdiffUuid : string
}.

(** [VDiffOutput]; the mutex [mu] has no content.  A response is a
    pointer: [None] is nil. *)
Record VDiffOutput := mkVDiffOutput {
  Request : VDiffRequest;
  Responses : gmap string (option VDiffResponse);
  Err : option error
}.

(** [workflow.MigrationTarget], through [GetPrimary().Tablet] and
    [GetShard().ShardName()]. *)
Record MigrationTarget := mkMigrationTarget {
  primary_Tablet : Tablet;
  ShardName : string
}.

(** The traffic switcher, as the targets it iterates over. *)
Definition TrafficSwitcher : Type := list MigrationTarget.

(** The collaborators of the wrangler. *)
Record WranglerEnv := mkWranglerEnv {
  buildTrafficSwitcher : string -> string -> TrafficSwitcher * option error;
  tmc_VDiff : Tablet -> VDiffRequest -> option VDiffResponse * option error
}.

(** Modelled from the spec: [ForAllTargets] is a method of the traffic
    switcher, declared outside these files.  It runs the callback once for
    every target, lets all of them complete, and surfaces the first error
    encountered.  The callbacks run on independent threads; the state [S]
    they share is only touched under the mutex, so a run is the
    sequence of the callbacks in some order of the targets, here the
    order of the list. *)
Fixpoint ForAllTargets {S : Type} (ts : TrafficSwitcher)
    (f : MigrationTarget -> S -> S * option error) (s : S)
  : S * option error :=
  match ts with
  | [] => (s, None)
  | target :: ts' =>
      let '(s, err) := f target s in
      let '(s, errs) := ForAllTargets ts' f s in
      (s, match err with Some e => Some e | None => errs end)
  end.

Variable wr : WranglerEnv.

(** The function literal passed to [ForAllTargets] in [VDiff2]. *)
Definition VDiff2_callback (req : VDiffRequest) (target : MigrationTarget)
    (output : VDiffOutput) : VDiffOutput * option error :=
  let '(resp, err) := tmc_VDiff wr (primary_Tablet target) req in
  (mkVDiffOutput (Request output)
     (<[ShardName target := resp]> (Responses output)) (Err output),
   err).

(** [VDiff2] from the call of [ForAllTargets] to the assignment of
    [output.Err]. *)
Definition VDiff2_fanout (req : VDiffRequest) (ts : TrafficSwitcher)
  : VDiffOutput :=
  let output := mkVDiffOutput req ∅ None in
  let '(output, err) := ForAllTargets ts (VDiff2_callback req) output in
  mkVDiffOutput (Request output) (Responses output) err.

(** [VDiff2]. *)
Definition VDiff2 (keyspace workflowName command subCommand uuid : string)
    (options : option VDiffOptions) : option VDiffOutput * option error :=
  let req := mkVDiffRequest keyspace workflowName command subCommand
               options uuid in
  let '(ts, err) := buildTrafficSwitcher wr keyspace workflowName in
  match err with
  | Some _ => (None, err)
  | None =>
      let output := VDiff2_fanout req ts in
      match Err output with
      | Some _ => (None, err)
      | None => (Some output, None)
      end
  end.

End VDiff.

(** ** Sample collaborators

    Concrete tablets, readers and answers of the collaborators, on which the
    definitions are run. *)
Module SampleRun.
Import Sample.

Definition table : TableDefinition :=
  mkTableDefinition "t" ["key"; "msg"] ["key"].

Definition range : chunk := mkChunk (VInt "5") (VInt "50").

Definition tablet_a : Tablet := mkTablet "zone1-100" "ks" "-80" 2.
Definition tablet_b : Tablet := mkTablet "zone1-101" "ks" "-80" 2.

Definition batch (keys : list string) : Result :=
  mkResult ["key"; "msg"] (map (fun k => Some [VInt k; VText "m"]) keys).

(** A reader that streams from [tablet_a] over the connection 7 and has
    delivered the rows up to key 7. *)
Definition streaming (allowMultipleRetries : bool) : RestartableResultReader :=
  mkReader table range allowMultipleRetries 0
    "SELECT `key`,`msg` FROM `t` WHERE `key`>=5 AND `key`<50 ORDER BY `key`"
    (Some tablet_a) (Some 7) ["key"; "msg"] (Some 0)
    (Some [VInt "7"; VText "m"]).

(** The query of a restart of [streaming]. *)
Definition resumed : string :=
  "SELECT `key`,`msg` FROM `t` WHERE `key`>7 AND `key`<50 ORDER BY `key`".

(** The provider has no tablet at the first call and [tablet_b] from then
    on; streams deliver their fields, then the keys 8 and 9, then end. *)
Definition env_late : Env :=
  mkEnv
    (fun i => if Nat.eqb i 0 then inr (Failure "no tablet") else inl tablet_b)
    (fun i _ => inl (10 + i))
    (fun i => match i with
              | 0 => (Some (batch []), None)
              | 1 => (Some (batch ["8"; "9"]), None)
              | _ => (None, Some io_EOF)
              end)
    (fun _ => TimerFired).

(** Every receive fails, the provider has a tablet at every second call,
    and the retry context is done by its deadline at the fourth select. *)
Definition env_down : Env :=
  mkEnv
    (fun i => if Nat.even i then inl tablet_b else inr (Failure "no tablet"))
    (fun i _ => inl (10 + i))
    (fun _ => (None, Some (Failure "connection lost")))
    (fun i => if Nat.ltb i 3 then TimerFired
              else CtxDone context_DeadlineExceeded).

(** The first receive fails, the restart on the same tablet delivers the
    keys 8 and 9. *)
Definition env_blip : Env :=
  mkEnv
    (fun _ => inl tablet_b)
    (fun i _ => inl (10 + i))
    (fun i => match i with
              | 0 => (None, Some (Failure "connection lost"))
              | 1 => (Some (batch []), None)
              | 2 => (Some (batch ["8"; "9"]), None)
              | _ => (None, Some io_EOF)
              end)
    (fun _ => CtxDone context_Canceled).

(** Two target shards; the VDiff RPC to the primary of the second one
    fails and delivers no response. *)
Definition target_a : MigrationTarget := mkMigrationTarget tablet_a "-80".
Definition target_b : MigrationTarget :=
  mkMigrationTarget (mkTablet "zone1-200" "ks" "80-" 1) "80-".

Definition wrangler : WranglerEnv unit string :=
  mkWranglerEnv unit string
    (fun _ _ => ([target_a; target_b], None))
    (fun t _ => if String.eqb (Shard t) "80-"
                then (None, Some (Failure "rpc failed"))
                else (Some "started", None)).

End SampleRun.

(** * Vocabulary of the properties *)

Section QueryVocabulary.
Context `{Sql : SqlPrimitives}.

(** The values the loop writes after the first one: each with its comma. *)
Definition commaValues (vals : list Value) : string :=
  foldr (fun v acc => "," +:+ EncodeSQL v +:+ acc) "" vals.

(** The tuple-greater-than predicate in the spec's words, for the columns
    [col1 :: cols] and the values [v1 :: vals]: [col1 > v1] for one
    column; [col1 >= v1] and [(col1,..,coln) > (v1,..,vn)] for more. *)
Definition tupleGreaterThan (col1 : string) (cols : list string)
    (v1 : Value) (vals : list Value) : list string :=
  match cols with
  | [] => [EscapeID col1 +:+ ">" +:+ EncodeSQL v1]
  | _ :: _ =>
      [EscapeID col1 +:+ ">=" +:+ EncodeSQL v1;
       "(" +:+ Join (escapeAll (col1 :: cols)) "," +:+ ")" +:+ ">" +:+ "("
       +:+ Join (map EncodeSQL (v1 :: take (length cols) vals)) ","
       +:+ ")"]
  end.

(** The caller-side precondition of a restart: the last row has a value
    for every primary-key column. *)
Definition covers (pks : list string) (lastRow : Row) : Prop :=
  match lastRow with
  | None => True
  | Some row => length pks <= length row
  end.

(** The one lower-bound term of the WHERE clause: the chunk-start term
    when there is no last row, the resume term otherwise. *)
Definition lowerBoundTerm (pk0 : string) (pks : list string) (c : chunk)
    (lastRow : Row) : list string :=
  match lastRow with
  | None => [boundClause pk0 ">=" (chunk_start c)]
  | Some [] => []
  | Some (v1 :: vals) => tupleGreaterThan pk0 pks v1 vals
  end.

Definition upperBoundTerm (pk0 : string) (c : chunk) : string :=
  boundClause pk0 "<" (chunk_end c).

End QueryVocabulary.

Section ReaderVocabulary.
Context `{Sql : SqlPrimitives}.

(** The world after the events [evs], leaving the counters to the caller. *)
Definition with_trace (w : World) (evs : list Event) : World :=
  mkWorld (trace w ++ evs) (n_getTablet w) (n_dial w) (n_stream w)
    (n_recv w) (n_select w).

(** How often the tablet handle was given back to the provider. *)
Definition returns (evs : list Event) : nat :=
  length (List.filter
            (fun ev => match ev with EvReturnTablet _ => true | _ => false end)
            evs).

(** What does not change during the life of a reader, and the last row,
    which only [Next] changes. *)
Definition same_scan (r r' : RestartableResultReader) : Prop :=
  td r' = td r /\ rchunk r' = rchunk r
  /\ allowMultipleRetries r' = allowMultipleRetries r
  /\ txID r' = txID r /\ lastRow r' = lastRow r.

(** What [getTablet] does with a tablet that was held before: the calls
    of [Close], and the reader with the four fields reset. *)
Definition release_events (r : RestartableResultReader) : list Event :=
  match tablet r, conn r with
  | Some _, Some c => [EvConnClose c; EvReturnTablet (tablet r)]
  | _, _ => []
  end.

Definition released (r : RestartableResultReader) : RestartableResultReader :=
  match tablet r with
  | Some _ => set_fields_output [] None (set_tablet_conn None None r)
  | None => r
  end.

(** Construction in the spec's words: one open-and-start attempt; after a
    retryable failure exactly one more; after a non-retryable failure,
    or when the second attempt fails too, an error and no reader. *)
Definition construction_spec (env : Env) (r : RestartableResultReader)
    (w : World) : outcome (option RestartableResultReader * option error) :=
  let failed e := Some (Wrap e "failed to initialize tablet connection") in
  match tryToConnect_attempt env r w with
  | Done None r1 w1 => Done (Some r1, None) r1 w1
  | Done (Some (false, e1)) r1 w1 => Done (None, failed e1) r1 w1
  | Done (Some (true, e1)) r1 w1 =>
      match tryToConnect_attempt env r1 w1 with
      | Done None r2 w2 => Done (Some r2, None) r2 w2
      | Done (Some (_, e2)) r2 w2 => Done (None, failed e2) r2 w2
      | Panic => Panic
      | OutOfFuel => OutOfFuel
      end
  | Panic => Panic
  | OutOfFuel => OutOfFuel
  end.

(** The reader a constructor starts from. *)
Definition fresh (td : TableDefinition) (c : chunk)
    (allowMultipleRetries : bool) (txID : Z) : RestartableResultReader :=
  mkReader td c allowMultipleRetries txID "" None None [] None None.

(** The calls of one restart of the stream: the streaming query on the
    connection [c] of the tablet [t], and receives on the new stream. *)
Definition restart_on (c : Conn) (t : Tablet) (q : string) (tx : Z)
    (seg : list Event) : Prop :=
  exists s recvs,
    seg = EvExecute c t q tx s :: recvs /\ Forall (eq (EvRecv s)) recvs.

(** What a reader holds of a tablet: the tablet and the connection to
    it, or neither. *)
Definition holds (r : RestartableResultReader)
    (held : option (Tablet * Conn)) : Prop :=
  match held with
  | Some (t, c) => tablet r = Some t /\ conn r = Some c
  | None => tablet r = None /\ conn r = None
  end.

(** The calls that give back what is held: the connection is closed and
    the tablet returned to the provider. *)
Definition release_of (held : option (Tablet * Conn)) : list Event :=
  match held with
  | Some (t, c) => [EvConnClose c; EvReturnTablet (Some t)]
  | None => []
  end.

(** The calls of an attempt that fails over, for a reader that holds
    [held] when the provider has been asked [g] times and the dialer [d]
    times.  What is held is given back, then the provider is asked, and
    its answer to this call decides the rest.  When it gives no tablet
    the attempt is over and the reader holds nothing.  When it gives the
    tablet [t], [t] is dialled, the stream is restarted on [t] and on the
    connection the dialer gave to this call, and the reader holds
    these two. *)
Definition failover_then_restart (env : Env) (q : string) (tx : Z)
    (held : option (Tablet * Conn)) (g d : nat) (seg : list Event)
    (held' : option (Tablet * Conn)) : Prop :=
  match tp_getTablet env g with
  | inr _ => seg = release_of held ++ [EvTpGetTablet] /\ held' = None
  | inl t =>
      exists c restart,
        dialer env d t = inl c
        /\ seg = release_of held ++ EvTpGetTablet :: EvDial t :: restart
        /\ restart_on c t q tx restart
        /\ held' = Some (t, c)
  end.

(** How often the dialer has been asked after a failover attempt that
    left the reader holding [held']: once more when it got a tablet. *)
Definition dials_after (held' : option (Tablet * Conn)) (d : nat) : nat :=
  match held' with
  | Some _ => S d
  | None => d
  end.

(** Successive failover attempts: each one starts from what the one
    before left the reader holding, asks the provider for the next time,
    and the last one leaves the reader holding [final]. *)
Fixpoint failovers (env : Env) (q : string) (tx : Z)
    (held : option (Tablet * Conn)) (g d : nat) (segs : list (list Event))
    (final : option (Tablet * Conn)) : Prop :=
  match segs with
  | [] => final = held
  | seg :: segs =>
      exists held',
        failover_then_restart env q tx held g d seg held'
        /\ failovers env q tx held' (S g) (dials_after held' d) segs final
  end.

(** The calls of successive attempts, each followed by the select of the
    retry loop. *)
Definition join_attempts (segs : list (list Event)) : list Event :=
  concat (map (fun seg => seg ++ [EvSelect]) segs).

(** From the world [w] on, every dial succeeds. *)
Definition dial_succeeds (env : Env) (w : World) : Prop :=
  forall i t, n_dial w <= i -> exists c, dialer env i t = inl c.

(** A restart whose first receive is the [i]-th fails in a retryable
    way: the receive of the fields fails, or it delivers the fields and
    the receive after it fails with an error that is not the end of the
    stream. *)
Definition restart_fails (env : Env) (i : nat) : Prop :=
  match stream_Recv env i with
  | (_, Some _) => True
  | (Some _, None) =>
      exists e, (stream_Recv env (S i)).2 = Some e /\ is_EOF e = false
  | (None, None) => False
  end.

(** From the world [w] on, every restart fails in a retryable way. *)
Definition receive_fails (env : Env) (w : World) : Prop :=
  forall i, n_recv w <= i -> restart_fails env i.

(** The retry context is done after [n] pauses, by its deadline. *)
Definition deadline_after (env : Env) (w : World) (n : nat) : Prop :=
  (forall j, j < n -> retryCtx_select env (n_select w + j) = TimerFired)
  /\ retryCtx_select env (n_select w + n) = CtxDone context_DeadlineExceeded.

(** A method that never uses up the fuel of a loop. *)
Definition returns_or_panics {A : Type} (m : M A) : Prop :=
  forall r w, m r w <> OutOfFuel.

(** A method that leaves the scan and the last row of its reader alone. *)
Definition preserves {A : Type} (m : M A) : Prop :=
  forall r w a r' w', m r w = Done a r' w' -> same_scan r r'.

End ReaderVocabulary.

(** * Properties *)

(** ** Strings *)

Lemma append_nil_r (s : string) : s +:+ "" = s.
Proof. induction s as [|a s IH]; [reflexivity|]. cbv [String.append]. fold String.append. by rewrite IH. Qed.

Lemma append_assoc (s t u : string) : (s +:+ t) +:+ u = s +:+ t +:+ u.
Proof.
  induction s as [|a s IH]; [reflexivity|].
  change (String a ((s +:+ t) +:+ u) = String a (s +:+ t +:+ u)).
  by rewrite IH.
Qed.

(** ** The query synthesizer *)

Section QueryProperties.
Context `{Sql : SqlPrimitives}.

Lemma Join_values (v : Value) (vals : list Value) :
  Join (map EncodeSQL (v :: vals)) "," = EncodeSQL v +:+ commaValues vals.
Proof.
  unfold Join. revert v. induction vals as [|v' vals IH]; intros v.
  - cbn. by rewrite append_nil_r.
  - change (EncodeSQL v +:+ "," +:+ String.concat "," (map EncodeSQL (v' :: vals))
            = EncodeSQL v +:+ "," +:+ EncodeSQL v' +:+ commaValues vals).
    by rewrite IH.
Qed.

Lemma writeValues_from (row : list Value) (n k : nat) (b : string) :
  S k + n <= length row ->
  writeValues row (seq (S k) n) b
  = Some (b +:+ commaValues (take n (drop (S k) row))).
Proof.
  revert k b. induction n as [|n IH]; intros k b Hlen.
  - cbn. by rewrite append_nil_r.
  - cbn [seq writeValues Nat.eqb].
    destruct (row !! S k) as [v|] eqn:Hv.
    2:{ apply lookup_ge_None in Hv. lia. }
    rewrite IH by lia.
    rewrite (drop_S _ _ _ Hv). cbn [take commaValues foldr].
    by rewrite !append_assoc.
Qed.

Lemma writeValues_all (v : Value) (vals : list Value) (n : nat) (b : string) :
  n <= length vals ->
  writeValues (v :: vals) (seq 0 (S n)) b
  = Some (b +:+ Join (map EncodeSQL (v :: take n vals)) ",").
Proof.
  intros Hlen. cbn [seq writeValues Nat.eqb lookup list_lookup].
  rewrite writeValues_from by (cbn; lia).
  by rewrite Join_values, append_assoc.
Qed.

Lemma writeValues_short (row : list Value) (n k : nat) (b : string) :
  length row < k + n -> 0 < n -> writeValues row (seq k n) b = None.
Proof.
  revert k b. induction n as [|n IH]; intros k b Hlen Hn; [lia|].
  cbn [seq writeValues].
  destruct (row !! k) as [v|] eqn:Hv; [|reflexivity].
  apply lookup_lt_Some in Hv.
  apply IH; lia.
Qed.

Lemma append_nil_l (s : string) : "" +:+ s = s.
Proof. reflexivity. Qed.

Lemma greaterThanTupleWhereClause_cons (col1 : string) (cols : list string)
    (v1 : Value) (vals : list Value) :
  length cols <= length vals ->
  greaterThanTupleWhereClause (col1 :: cols) (v1 :: vals)
  = Some (tupleGreaterThan col1 cols v1 vals).
Proof.
  intros Hlen. unfold greaterThanTupleWhereClause, tupleGreaterThan.
  cbn [length]. rewrite writeValues_all by done.
  destruct cols as [|col2 cols]; cbn -[String.append Join escapeAll take].
  - unfold paren, Join, escapeAll. cbn [map String.concat take].
    by rewrite !append_nil_l, ?append_assoc, ?append_nil_r.
  - unfold paren. by rewrite ?append_assoc.
Qed.

Lemma greaterThanTupleWhereClause_short (columns : list string)
    (row : list Value) :
  length row < length columns ->
  greaterThanTupleWhereClause columns row = None.
Proof.
  intros Hlen. unfold greaterThanTupleWhereClause.
  destruct (1 <? length columns) eqn:Hmulti.
  - destruct (columns !! 0) as [c0|]; [|reflexivity].
    destruct (row !! 0) as [v0|]; [|reflexivity].
    cbn. rewrite writeValues_short by lia. reflexivity.
  - cbn. rewrite writeValues_short by lia. reflexivity.
Qed.

(** C2.  For a non-empty column list [col1 :: cols] and a row with a value
    for each column, [greaterThanTupleWhereClause] emits exactly
    [col1 > v1] when there is one column, and exactly the two clauses
    [col1 >= v1] and [(col1,..,coln) > (v1,..,vn)] when there are more. *)
Theorem greaterThanTupleWhereClause_emits (col1 : string)
    (cols : list string) (v1 : Value) (vals : list Value) :
  length cols <= length vals ->
  greaterThanTupleWhereClause (col1 :: cols) (v1 :: vals)
  = Some (match cols with
          | [] => [EscapeID col1 +:+ ">" +:+ EncodeSQL v1]
          | _ :: _ =>
              [EscapeID col1 +:+ ">=" +:+ EncodeSQL v1;
               "(" +:+ Join (escapeAll (col1 :: cols)) "," +:+ ")"
               +:+ ">" +:+ "("
               +:+ Join (map EncodeSQL (v1 :: take (length cols) vals)) ","
               +:+ ")"]
          end).
Proof. apply greaterThanTupleWhereClause_cons. Qed.

(** C9.  With at least one column and a row that has a value for every
    column, every access [row[i]] of [greaterThanTupleWhereClause] is in
    bounds and the function returns its clauses; with a row shorter than
    the column list an access is out of bounds. *)
Theorem greaterThanTupleWhereClause_total (columns : list string)
    (row : list Value) :
  (1 <= length columns -> length columns <= length row ->
   is_Some (greaterThanTupleWhereClause columns row))
  /\ (length row < length columns ->
      greaterThanTupleWhereClause columns row = None).
Proof.
  split; [|apply greaterThanTupleWhereClause_short].
  intros Hk Hlen.
  destruct columns as [|col1 cols]; [cbn in Hk; lia|].
  destruct row as [|v1 vals]; [cbn in Hlen; lia|].
  rewrite greaterThanTupleWhereClause_cons by (cbn in Hlen; lia).
  by eexists.
Qed.

(** C1.  With at least one primary-key column and both chunk bounds
    non-null, the WHERE clause of the generated query is the one
    lower-bound term (chunk-start term without a last row, resume term
    with one) followed by the one upper-bound term [pk[0] < end], and the
    query ends with the ORDER BY over all primary-key columns. *)
Theorem generateQuery_bounds (td : TableDefinition) (c : chunk)
    (lastRow : Row) (pk0 : string) (pks : list string) :
  PrimaryKeyColumns td = pk0 :: pks ->
  IsNull (chunk_start c) = false ->
  IsNull (chunk_end c) = false ->
  covers (pk0 :: pks) lastRow ->
  generateQuery td c lastRow
  = Some (selectFrom td
          +:+ " WHERE "
          +:+ Join (lowerBoundTerm pk0 pks c lastRow
                    ++ [upperBoundTerm pk0 c]) " AND "
          +:+ " ORDER BY " +:+ Join (escapeAll (pk0 :: pks)) ",").
Proof.
  intros Hpk Hstart Hend Hcov. unfold generateQuery.
  rewrite Hpk, Hstart, Hend. cbn [negb lookup list_lookup length Nat.ltb Nat.leb].
  destruct lastRow as [[|v1 vals]|]; cbn in Hcov.
  - lia.
  - rewrite greaterThanTupleWhereClause_cons by lia.
    cbn -[String.append Join escapeAll tupleGreaterThan].
    rewrite length_app, Nat.add_1_r.
    by rewrite !append_assoc.
  - cbn -[String.append Join escapeAll].
    by rewrite !append_assoc.
Qed.

End QueryProperties.

(** ** The reader *)

Ltac unfold_M :=
  unfold mbind, M_bind, mret, M_ret, get, modify, deref, panic, outOfFuel,
    emit, call_tp_getTablet, call_dial, call_Execute, call_Recv, call_select,
    record in *.

Section ReaderProperties.
Context `{Sql : SqlPrimitives}.
Variable env : Env.

#[local] Arguments generateQuery : simpl never.

Lemma Close_run (r : RestartableResultReader) (w : World) :
  Close r w
  = Done tt r
      match conn r with
      | Some c => with_trace w [EvConnClose c; EvReturnTablet (tablet r)]
      | None => w
      end.
Proof.
  unfold Close. unfold_M. destruct (conn r) as [c|]; [|reflexivity].
  unfold with_trace. cbn. by rewrite <- app_assoc.
Qed.

Lemma getTablet_run (r : RestartableResultReader) (w : World) :
  getTablet env r w
  = match tp_getTablet env (n_getTablet w) with
    | inr err =>
        Done (true, Some (Wrap err "failed get tablet for streaming query"))
          (released r)
          (mkWorld (trace w ++ release_events r ++ [EvTpGetTablet])
             (S (n_getTablet w)) (n_dial w) (n_stream w) (n_recv w)
             (n_select w))
    | inl t =>
        let w' := mkWorld
                    (trace w ++ release_events r ++ [EvTpGetTablet; EvDial t])
                    (S (n_getTablet w)) (S (n_dial w)) (n_stream w)
                    (n_recv w) (n_select w) in
        match dialer env (n_dial w) t with
        | inr err =>
            Done (false, Some (Wrap err "failed to get dialer for tablet"))
              (released r) w'
        | inl c =>
            Done (false, None)
              (set_tablet_conn (Some t) (Some c) (released r)) w'
        end
    end.
Proof.
  unfold getTablet, Close, released, release_events. unfold_M.
  destruct (tablet r) as [t0|] eqn:Ht, (conn r) as [c0|]; cbn;
    destruct (tp_getTablet env (n_getTablet w)) as [t|err]; cbn;
    try destruct (dialer env (n_dial w) t) as [c|err]; cbn;
    rewrite <- ?app_assoc, ?Ht; reflexivity.
Qed.

Lemma startStream_run (r : RestartableResultReader) (w : World) :
  startStream env r w
  = match generateQuery (td r) (rchunk r) (lastRow r), tablet r, conn r with
    | Some q, Some t, Some c =>
        let w' := mkWorld
                    (trace w ++ [EvExecute c t q (txID r) (n_stream w);
                                 EvRecv (n_stream w)])
                    (n_getTablet w) (n_dial w) (S (n_stream w))
                    (S (n_recv w)) (n_select w) in
        match stream_Recv env (n_recv w) with
        | (_, Some e) =>
            Done (true, Some (Wrap e "cannot read Fields for query"))
              (set_query q r) w'
        | (Some cols, None) =>
            Done (false, None)
              (set_fields_output (Fields cols) (Some (n_stream w))
                 (set_query q r)) w'
        | (None, None) => Panic
        end
    | _, _, _ => Panic
    end.
Proof.
  unfold startStream, generateQuery_. unfold_M.
  destruct (generateQuery (td r) (rchunk r) (lastRow r)) as [q|];
    [|reflexivity]; cbn.
  destruct (tablet r) as [t|]; [|reflexivity]; cbn.
  destruct (conn r) as [c|]; [|reflexivity]; cbn.
  destruct (stream_Recv env (n_recv w)) as [[cols|] [e|]]; cbn;
    rewrite <- ?app_assoc; reflexivity.
Qed.

Lemma same_scan_refl (r : RestartableResultReader) : same_scan r r.
Proof. by repeat split. Qed.

Lemma same_scan_trans (r1 r2 r3 : RestartableResultReader) :
  same_scan r1 r2 -> same_scan r2 r3 -> same_scan r1 r3.
Proof. unfold same_scan. intuition congruence. Qed.

Lemma released_same_scan (r : RestartableResultReader) :
  same_scan r (released r).
Proof. unfold released. destruct (tablet r); by repeat split. Qed.

Lemma getTablet_same_scan {a r w r' w'} :
  getTablet env r w = Done a r' w' -> same_scan r r'.
Proof.
  rewrite getTablet_run. intros H.
  pose proof (released_same_scan r) as Hrel.
  cbv zeta in H. repeat case_match; simplify_eq; try done.
  all: destruct Hrel as (? & ? & ? & ? & ?); by repeat split.
Qed.

Lemma startStream_same_scan {a r w r' w'} :
  startStream env r w = Done a r' w' -> same_scan r r'.
Proof.
  rewrite startStream_run. intros H. cbv zeta in H.
  repeat case_match; simplify_eq; by repeat split.
Qed.

(** *** The fields a method leaves alone *)

Lemma preserves_ret {A} (a : A) : preserves (mret a).
Proof. intros r w a' r' w' H. injection H as <- <- <-. apply same_scan_refl. Qed.

Lemma preserves_bind {A B} (m : M A) (f : A -> M B) :
  preserves m -> (forall a, preserves (f a)) -> preserves (m ≫= f).
Proof.
  intros Hm Hf r w b r' w' H. unfold mbind, M_bind in H.
  destruct (m r w) as [a r1 w1| |] eqn:Hrun; [|done..].
  eapply same_scan_trans; [by eapply Hm | by eapply Hf].
Qed.

Lemma preserves_get : preserves get.
Proof. intros r w a r' w' H. injection H as <- <- <-. apply same_scan_refl. Qed.

Lemma preserves_panic {A} : preserves (@panic _ A).
Proof. intros r w a r' w' H. discriminate H. Qed.

Lemma preserves_outOfFuel {A} : preserves (@outOfFuel _ A).
Proof. intros r w a r' w' H. discriminate H. Qed.

Lemma preserves_deref {A} (p : option A) : preserves (deref p).
Proof. destruct p; [apply preserves_ret | apply preserves_panic]. Qed.

Lemma preserves_modify (f : RestartableResultReader -> RestartableResultReader) :
  (forall r, same_scan r (f r)) -> preserves (modify f).
Proof. intros Hf r w a r' w' H. injection H as <- <- <-. apply Hf. Qed.

Lemma preserves_world {A} (m : M A) :
  (forall r w, exists a w', m r w = Done a r w') -> preserves m.
Proof.
  intros Hm r w a r' w' H. destruct (Hm r w) as (a0 & w0 & Hrun).
  rewrite Hrun in H. injection H as <- <- <-. apply same_scan_refl.
Qed.

(** *** Methods without a loop do not use fuel *)

Lemma returns_ret {A} (a : A) : returns_or_panics (mret a).
Proof. by intros r w. Qed.

Lemma returns_bind {A B} (m : M A) (f : A -> M B) :
  returns_or_panics m -> (forall a, returns_or_panics (f a)) ->
  returns_or_panics (m ≫= f).
Proof.
  intros Hm Hf r w. unfold mbind, M_bind.
  destruct (m r w) as [a r1 w1| |] eqn:Hrun; [apply Hf | done |].
  by apply Hm in Hrun.
Qed.

Lemma returns_total {A} (m : M A) :
  (forall r w, exists a r' w', m r w = Done a r' w') -> returns_or_panics m.
Proof. intros Hm r w. destruct (Hm r w) as (a & r' & w' & ->). done. Qed.

Lemma returns_deref {A} (p : option A) : returns_or_panics (deref p).
Proof. by destruct p. Qed.

Ltac returns_step :=
  first
    [ apply returns_bind; [|intros ?]
    | apply returns_ret
    | apply returns_deref
    | apply returns_total; intros ? ?; by eexists _, _, _
    | assumption
    | match goal with
      | |- returns_or_panics (match ?x with _ => _ end) => destruct x
      end ].

Ltac preserves_step :=
  first
    [ apply preserves_bind; [|intros ?]
    | apply preserves_ret
    | apply preserves_get
    | apply preserves_panic
    | apply preserves_outOfFuel
    | apply preserves_deref
    | apply preserves_modify; intros ?; by repeat split
    | apply preserves_world; intros ? ?; by eexists _, _
    | assumption
    | match goal with
      | |- preserves (match ?x with _ => _ end) => destruct x
      | |- preserves (let '(_, _) := ?x in _) => destruct x
      end ].

Lemma Close_preserves : preserves Close.
Proof. unfold Close. repeat preserves_step. Qed.

Lemma getTablet_preserves : preserves (getTablet env).
Proof.
  pose proof Close_preserves. unfold getTablet. repeat preserves_step.
Qed.

Lemma startStream_preserves : preserves (startStream env).
Proof. unfold startStream, generateQuery_. repeat preserves_step. Qed.

Lemma nextWithRetries_attempt_preserves (attempt : nat) :
  preserves (nextWithRetries_attempt env attempt).
Proof.
  pose proof getTablet_preserves. pose proof startStream_preserves.
  unfold nextWithRetries_attempt. repeat preserves_step.
Qed.

Lemma nextWithRetries_loop_preserves (fuel attempt : nat) :
  preserves (nextWithRetries_loop env fuel attempt).
Proof.
  revert attempt. induction fuel as [|fuel IH]; intros attempt;
    cbn [nextWithRetries_loop]; [apply preserves_outOfFuel|].
  pose proof (nextWithRetries_attempt_preserves (attempt + 1)).
  pose proof (IH (attempt + 1)).
  repeat preserves_step.
Qed.

Lemma bind_Done_inv {A B} (m : M A) (f : A -> M B) r w b r' w' :
  (m ≫= f) r w = Done b r' w' ->
  exists a r1 w1, m r w = Done a r1 w1 /\ f a r1 w1 = Done b r' w'.
Proof.
  unfold mbind, M_bind. destruct (m r w) as [a r1 w1| |]; [|done..].
  intros H. by exists a, r1, w1.
Qed.

(** *** Next *)

Lemma Next_retry_preserves (fuel : nat) (result : option Result)
    (err : option error) :
  preserves
    (match err with
     | Some e =>
         if negb (is_EOF e) then
           r ← get; _ ← deref (tablet r); nextWithRetries env fuel
         else mret (result, err)
     | None => mret (result, err)
     end).
Proof.
  pose proof (nextWithRetries_loop_preserves fuel 1).
  unfold nextWithRetries. repeat preserves_step.
Qed.

(** C3.  When [Next] returns a result with at least one row, the last row
    of the reader is the final row of that result; when the result it
    returns has no row, or is nil, the last row is as it was before the
    call. *)
Theorem Next_lastRow (fuel : nat) (r : RestartableResultReader) (w : World)
    (res : option Result) (err : option error)
    (r' : RestartableResultReader) (w' : World) :
  Next env fuel r w = Done (res, err) r' w' ->
  match res with
  | Some result =>
      match last (Rows result) with
      | Some row => lastRow r' = row
      | None => lastRow r' = lastRow r
      end
  | None => lastRow r' = lastRow r
  end.
Proof.
  unfold Next. intros H.
  apply bind_Done_inv in H as (r0 & r1 & w1 & Hget & H).
  injection Hget as <- <- <-.
  apply bind_Done_inv in H as (out & r1 & w1 & Hout & H).
  destruct (output r) as [out'|]; [|done]. injection Hout as <- <- <-.
  apply bind_Done_inv in H as ([result0 err0] & r1 & w1 & Hrecv & H).
  injection Hrecv as Hanswer <- <-.
  apply bind_Done_inv in H as ([result err'] & r2 & w2 & Hretry & H).
  apply Next_retry_preserves in Hretry as (_ & _ & _ & _ & Hlast).
  apply bind_Done_inv in H as ([] & r3 & w3 & Hset & H).
  injection H as <- <- <- <-.
  destruct result as [result|]; [|by injection Hset as <- <-].
  rewrite last_lookup, Nat.sub_1_r in *.
  destruct (Rows result) as [|row rows] eqn:Hrows; cbn in Hset |- *.
  { by injection Hset as <- <-. }
  apply bind_Done_inv in Hset as (row' & r4 & w4 & Hrow & Hset).
  destruct ((row :: rows) !! length rows) as [row''|] eqn:Hlookup;
    [|done].
  injection Hrow as <- <- <-. by injection Hset as <- <-.
Qed.

(** *** Construction *)

Lemma tryToConnect_attempt_counts {res r w r' w'} :
  tryToConnect_attempt env r w = Done res r' w' ->
  n_getTablet w' = S (n_getTablet w).
Proof.
  unfold tryToConnect_attempt. intros H.
  apply bind_Done_inv in H as ([retryable err] & r1 & w1 & Hg & H).
  rewrite getTablet_run in Hg. cbv zeta in Hg.
  assert (n_getTablet w1 = S (n_getTablet w)) as Hn
    by (repeat case_match; by simplify_eq).
  destruct err as [e|]; [by injection H as <- <- <-|].
  apply bind_Done_inv in H as ([retryable' err] & r2 & w2 & Hs & H).
  rewrite startStream_run in Hs. cbv zeta in Hs.
  assert (n_getTablet w2 = n_getTablet w1) as Hn'
    by (repeat case_match; by simplify_eq).
  destruct err as [e|]; [|injection H as <- <- <-; congruence].
  apply bind_Done_inv in H as (r3 & r4 & w4 & Hget & H).
  injection Hget as <- <- <-.
  apply bind_Done_inv in H as (t & r4 & w4 & Ht & H).
  destruct (tablet r2); [|done]. injection Ht as <- <- <-.
  injection H as <- <- <-. congruence.
Qed.

Lemma tryToConnect_unroll (fuel : nat) (r : RestartableResultReader)
    (w : World) :
  2 <= fuel ->
  construct env fuel r w = construction_spec env r w.
Proof.
  intros Hfuel. destruct fuel as [|[|fuel]]; [lia..|].
  unfold construct, construction_spec, tryToConnect.
  cbn [tryToConnect_loop]. unfold mbind, M_bind, mret, M_ret.
  destruct (tryToConnect_attempt env r w)
    as [[[[] e1]|] r1 w1| |]; cbn; try reflexivity.
  destruct (tryToConnect_attempt env r1 w1)
    as [[[retryable e2]|] r2 w2| |]; cbn; try reflexivity.
  by rewrite orb_true_r.
Qed.

Lemma tryToConnect_attempt_returns : returns_or_panics (tryToConnect_attempt env).
Proof.
  unfold tryToConnect_attempt, getTablet, startStream, generateQuery_, Close.
  repeat returns_step.
Qed.

Lemma construction_spec_returns (r : RestartableResultReader) (w : World) :
  construction_spec env r w <> OutOfFuel.
Proof.
  unfold construction_spec.
  destruct (tryToConnect_attempt env r w)
    as [[[[] e1]|] r1 w1| |] eqn:H1; cbn; try done.
  - destruct (tryToConnect_attempt env r1 w1)
      as [[[retryable e2]|] r2 w2| |] eqn:H2; cbn; try done.
    by apply tryToConnect_attempt_returns in H2.
  - by apply tryToConnect_attempt_returns in H1.
Qed.

Lemma construction_spec_Done (r : RestartableResultReader) (w : World)
    res r' w' :
  construction_spec env r w = Done res r' w' ->
  (res.1 = None <-> is_Some res.2)
  /\ (n_getTablet w' = n_getTablet w + 1
      \/ n_getTablet w' = n_getTablet w + 2).
Proof.
  unfold construction_spec.
  destruct (tryToConnect_attempt env r w)
    as [[[[] e1]|] r1 w1| |] eqn:H1; cbn; try done.
  1: destruct (tryToConnect_attempt env r1 w1)
       as [[[retryable e2]|] r2 w2| |] eqn:H2; cbn; try done;
     apply tryToConnect_attempt_counts in H2.
  all: apply tryToConnect_attempt_counts in H1.
  all: intros [= <- <- <-]; cbn; (split; [|lia]).
  all: split; [first [done | by eexists] | first [done | by intros []]].
Qed.

(** C6.  Construction makes one open-and-start attempt and, when that
    fails with a retryable error, exactly one more; after a non-retryable
    failure, or when the second attempt fails too, it returns an error
    and no reader.  So it makes one or two attempts, whatever the fuel
    of the loop, and hands out a reader exactly when it returns no
    error. *)
Theorem NewRestartableResultReader_attempts (fuel : nat)
    (td : TableDefinition) (c : chunk) (allowMultipleRetries : bool)
    (w : World) :
  2 <= fuel ->
  NewRestartableResultReader env fuel td c allowMultipleRetries w
  = construction_spec env (fresh td c allowMultipleRetries 0) w
  /\ NewRestartableResultReader env fuel td c allowMultipleRetries w
     <> OutOfFuel
  /\ forall res r' w',
       NewRestartableResultReader env fuel td c allowMultipleRetries w
       = Done res r' w' ->
       (res.1 = None <-> is_Some res.2)
       /\ (n_getTablet w' = n_getTablet w + 1
           \/ n_getTablet w' = n_getTablet w + 2).
Proof.
  intros Hfuel. unfold NewRestartableResultReader.
  rewrite tryToConnect_unroll by done.
  fold (fresh td c allowMultipleRetries 0).
  split; [reflexivity|].
  split; [apply construction_spec_returns | apply construction_spec_Done].
Qed.

(** *** The retry protocol *)

Lemma restart_fails_run (r : RestartableResultReader) (w : World)
    (t : Tablet) (c : Conn) (q : string) :
  tablet r = Some t -> conn r = Some c ->
  generateQuery (td r) (rchunk r) (lastRow r) = Some q ->
  restart_fails env (n_recv w) ->
  exists e r1 w1 seg,
    nextWithRetries_attempt env 2 r w = Done (ARetry e) r1 w1
    /\ trace w1 = trace w ++ seg
    /\ restart_on c t q (txID r) seg
    /\ same_scan r r1 /\ tablet r1 = Some t /\ conn r1 = Some c
    /\ n_select w1 = n_select w
    /\ n_dial w1 = n_dial w /\ n_recv w <= n_recv w1.
Proof.
  intros Ht Hc Hq Hfail. unfold restart_fails in Hfail.
  unfold nextWithRetries_attempt. unfold_M. cbn [Nat.ltb Nat.leb].
  rewrite startStream_run, Ht, Hc, Hq. cbv zeta.
  destruct (stream_Recv env (n_recv w)) as [[cols|] [e|]] eqn:Hrecv;
    [|destruct Hfail as (e & Herr & Heof)| |done].
  1,3: cbn; eexists _, _, _, _; (split; [reflexivity|]); cbn;
    repeat split; try done; try lia;
    eexists _, [_]; (split; [reflexivity|]); by repeat constructor.
  - cbn.
    destruct (stream_Recv env (S (n_recv w))) as [result err'] eqn:Hrecv'.
    cbn in Herr. subst err'. rewrite Heof.
    eexists _, _, _, _. split; [reflexivity|]. cbn.
    repeat split; try done; try lia.
    + by rewrite <- app_assoc.
    + eexists _, [_; _]. split; [reflexivity|]. by repeat constructor.
Qed.

Lemma restart_keeps_provider (r : RestartableResultReader) (w : World)
    (a : AttemptResult) (r' : RestartableResultReader) (w' : World) :
  nextWithRetries_attempt env 2 r w = Done a r' w' ->
  n_getTablet w' = n_getTablet w.
Proof.
  unfold nextWithRetries_attempt. unfold_M. cbn [Nat.ltb Nat.leb].
  rewrite startStream_run. cbv zeta. intros H.
  repeat (case_match; unfold mret, M_ret in *; simplify_eq; cbn in *;
          try done).
Qed.

Lemma holds_release (r : RestartableResultReader)
    (held : option (Tablet * Conn)) :
  holds r held ->
  release_events r = release_of held /\ holds (released r) None.
Proof.
  unfold holds, release_events, released.
  destruct held as [[t c]|]; intros [Ht Hc]; rewrite Ht, Hc; by cbn.
Qed.

Lemma failover_fails_run (k : nat) (r : RestartableResultReader)
    (w : World) (q : string) (held : option (Tablet * Conn)) :
  generateQuery (td r) (rchunk r) (lastRow r) = Some q ->
  holds r held ->
  dial_succeeds env w -> receive_fails env w ->
  exists e r1 w1 seg held',
    nextWithRetries_attempt env (3 + k) r w = Done (ARetry e) r1 w1
    /\ trace w1 = trace w ++ seg
    /\ failover_then_restart env q (txID r) held (n_getTablet w) (n_dial w)
         seg held'
    /\ holds r1 held'
    /\ same_scan r r1
    /\ n_getTablet w1 = S (n_getTablet w)
    /\ n_dial w1 = dials_after held' (n_dial w)
    /\ n_select w1 = n_select w
    /\ n_recv w <= n_recv w1.
Proof.
  intros Hq Hheld Hdial Hrecv.
  pose proof (released_same_scan r) as Hrel.
  destruct (holds_release r held Hheld) as [Hrelease [Hnot Hnoc]].
  destruct Hrel as (Htd & Hchunk & Hamr & Htx & Hlast).
  unfold failover_then_restart.
  unfold nextWithRetries_attempt. unfold_M. cbn [Nat.ltb Nat.leb Nat.add].
  rewrite getTablet_run, Hrelease. cbv zeta.
  destruct (tp_getTablet env (n_getTablet w)) as [t|err] eqn:Htp.
  2:{ cbn. eexists _, _, _, _, None. split; [reflexivity|]. cbn.
      by repeat split. }
  destruct (Hdial (n_dial w) t (le_n _)) as (c & Hc). rewrite Hc. cbn.
  rewrite startStream_run. cbn. rewrite Htd, Hchunk, Hlast, Htx, Hq.
  specialize (Hrecv (n_recv w) (le_n _)). unfold restart_fails in Hrecv.
  destruct (stream_Recv env (n_recv w)) as [[cols|] [e|]] eqn:Hanswer;
    [|destruct Hrecv as (e & Herr & Heof)| |done].
  1,3: cbn; eexists _, _, _, _, (Some (t, c)); (split; [reflexivity|]); cbn;
    rewrite <- ?app_assoc; repeat split; try done; try lia;
    eexists c, _; (split; [done|]); (split; [reflexivity|]);
    (split; [|done]);
    eexists _, [_]; (split; [reflexivity|]); by repeat constructor.
  cbn.
  destruct (stream_Recv env (S (n_recv w))) as [result err'] eqn:Hanswer'.
  cbn in Herr. subst err'. rewrite Heof.
  eexists _, _, _, _, (Some (t, c)). split; [reflexivity|]. cbn.
  rewrite <- ?app_assoc. repeat split; try done; try lia.
  eexists c, _. split; [done|]. split; [reflexivity|]. split; [|done].
  eexists _, [_; _]. split; [reflexivity|]. by repeat constructor.
Qed.

Lemma answers_later (w w' : World) :
  n_dial w <= n_dial w' -> n_recv w <= n_recv w' ->
  dial_succeeds env w -> receive_fails env w ->
  dial_succeeds env w' /\ receive_fails env w'.
Proof.
  intros Hd Hr Hdial Hrecv. split.
  - intros i t Hi. apply Hdial. lia.
  - intros i Hi. apply Hrecv. lia.
Qed.

Lemma deadline_after_pause (w w' : World) (n : nat) :
  n_select w' = S (n_select w) ->
  deadline_after env w (S n) -> deadline_after env w' n.
Proof.
  intros Hsel [Hpause Hdone]. unfold deadline_after. rewrite Hsel. split.
  - intros j Hj.
    replace (S (n_select w) + j) with (n_select w + S j) by lia.
    apply Hpause. lia.
  - by replace (S (n_select w) + n) with (n_select w + S n) by lia.
Qed.

Lemma dials_after_le (held' : option (Tablet * Conn)) (d : nat) :
  d <= dials_after held' d.
Proof. destruct held'; cbn; lia. Qed.

Lemma failover_loop_run (n : nat) :
  forall (fuel k : nat) (r : RestartableResultReader) (w : World)
         (q : string) (held : option (Tablet * Conn)),
    n < fuel ->
    generateQuery (td r) (rchunk r) (lastRow r) = Some q ->
    holds r held ->
    dial_succeeds env w -> receive_fails env w -> deadline_after env w n ->
    exists r' w' segs final,
      nextWithRetries_loop env fuel (2 + k) r w
      = Done (None, Some (Wrap context_DeadlineExceeded
                "failed to restart the streaming connection after retrying"))
          r' w'
      /\ trace w' = trace w ++ join_attempts segs
      /\ length segs = S n
      /\ failovers env q (txID r) held (n_getTablet w) (n_dial w) segs final
      /\ holds r' final.
Proof.
  induction n as [|n IH];
    intros fuel k r w q held Hfuel Hq Hheld Hdial Hrecv Hctx;
    (destruct fuel as [|fuel]; [lia|]); cbn [nextWithRetries_loop];
    replace (2 + k + 1) with (3 + k) by lia;
    destruct (failover_fails_run k r w q held Hq Hheld Hdial Hrecv)
      as (e & r1 & w1 & seg & held' & Hrun & Htrace & Hseg & Hheld1 & Hscan
          & Hg & Hd & Hsel & Hr);
    unfold mbind at 1, M_bind at 1; rewrite Hrun;
    unfold_M; cbn [Nat.add Nat.eqb andb]; rewrite Hsel.
  - destruct Hctx as [_ Hdone]. rewrite Nat.add_0_r in Hdone.
    rewrite Hdone. cbn.
    eexists _, _, [seg], held'. split; [reflexivity|]. cbn.
    rewrite Htrace, app_nil_r, <- app_assoc.
    split; [done|]. split; [done|]. split; [|done].
    by exists held'.
  - pose proof Hctx as [Hpause _].
    specialize (Hpause 0 ltac:(lia)). rewrite Nat.add_0_r in Hpause.
    rewrite Hpause.
    destruct Hscan as (Htd & Hchunk & Hamr & Htx & Hlast).
    set (w2 := mkWorld (trace w1 ++ [EvSelect]) (n_getTablet w1)
                 (n_dial w1) (n_stream w1) (n_recv w1) (S (n_select w))).
    pose proof (dials_after_le held' (n_dial w)) as Hle.
    destruct (answers_later w w2 ltac:(cbn; lia) Hr Hdial Hrecv)
      as [Hdial2 Hrecv2].
    edestruct (IH fuel (S k) r1 w2 q held')
      as (r' & w' & segs & final & Hloop & Htrace' & Hlen & Hsegs & Hfinal);
      [lia | by rewrite Htd, Hchunk, Hlast | done | done | done
      | by eapply deadline_after_pause |].
    replace (3 + k) with (2 + S k) by lia.
    eexists _, _, (seg :: segs), final. split; [exact Hloop|].
    rewrite Htrace'. subst w2. cbn [trace n_getTablet n_dial] in *.
    rewrite Htrace, Htx, Hg, Hd in *.
    unfold join_attempts. cbn [map concat length].
    rewrite <- !app_assoc.
    split; [done|]. split; [by rewrite Hlen|]. split; [|done].
    by exists held'.
Qed.

(** C5.  When multiple retries are not allowed and the restart on the
    same tablet fails in a retryable way, [nextWithRetries] returns an
    error at once: the calls it made are the one streaming query on the
    connection and tablet it held, and receives on that stream; no tablet
    was asked from the provider and no second stream was started. *)
Theorem nextWithRetries_single_retry (fuel : nat)
    (r : RestartableResultReader) (w : World) (t : Tablet) (c : Conn)
    (q : string) :
  allowMultipleRetries r = false ->
  tablet r = Some t -> conn r = Some c ->
  generateQuery (td r) (rchunk r) (lastRow r) = Some q ->
  restart_fails env (n_recv w) ->
  1 <= fuel ->
  exists e r' w' seg,
    nextWithRetries env fuel r w
    = Done (None, Some (Wrap e
              "first retry to restart the streaming query on the same tablet failed"))
        r' w'
    /\ trace w' = trace w ++ seg
    /\ restart_on c t q (txID r) seg
    /\ tablet r' = Some t /\ conn r' = Some c.
Proof.
  intros Hamr Ht Hc Hq Hfail Hfuel.
  destruct fuel as [|fuel]; [lia|].
  destruct (restart_fails_run r w t c q Ht Hc Hq Hfail)
    as (e & r1 & w1 & seg & Hrun & Htrace & Hseg & Hscan & Ht1 & Hc1 & Hsel
        & _).
  unfold nextWithRetries. cbn [nextWithRetries_loop Nat.add].
  unfold mbind at 1, M_bind at 1. rewrite Hrun. unfold_M.
  destruct Hscan as (_ & _ & Hamr1 & _). rewrite Hamr1, Hamr. cbn.
  by eexists e, r1, w1, seg.
Qed.

(** C4.  When multiple retries are allowed, every attempt fails in a
    retryable way and the retry context is done by its deadline after [n]
    pauses, [nextWithRetries] returns the deadline error, and its calls
    are those of [1 + n] attempts.  Attempt 2 is a restart on the
    connection [c] and the tablet [t] the reader held, without a call to
    the provider.  Each of the [n] attempts after it is a failover: it
    gives back what the reader holds, then asks the provider, and with
    the tablet the provider gives to this call it dials and restarts the
    stream on the new connection and the new tablet; the first of them
    gives back [t] and [c], each later one what the attempt before it
    left, and the reader ends holding what the last attempt left. *)
Theorem nextWithRetries_failover_pattern (fuel n : nat)
    (r : RestartableResultReader) (w : World) (t : Tablet) (c : Conn)
    (q : string) :
  allowMultipleRetries r = true ->
  tablet r = Some t -> conn r = Some c ->
  generateQuery (td r) (rchunk r) (lastRow r) = Some q ->
  dial_succeeds env w -> receive_fails env w -> deadline_after env w n ->
  n < fuel ->
  exists r' w' seg2 segs final,
    nextWithRetries env fuel r w
    = Done (None, Some (Wrap context_DeadlineExceeded
              "failed to restart the streaming connection after retrying"))
        r' w'
    /\ trace w' = trace w ++ join_attempts (seg2 :: segs)
    /\ restart_on c t q (txID r) seg2
    /\ length segs = n
    /\ failovers env q (txID r) (Some (t, c)) (n_getTablet w) (n_dial w)
         segs final
    /\ holds r' final.
Proof.
  intros Hamr Ht Hc Hq Hdial Hrecv Hctx Hfuel.
  destruct fuel as [|fuel]; [lia|].
  destruct (restart_fails_run r w t c q Ht Hc Hq (Hrecv _ (le_n _)))
    as (e & r1 & w1 & seg & Hrun & Htrace & Hseg & Hscan & Ht1 & Hc1 & Hsel
        & Hd & Hr).
  pose proof (restart_keeps_provider r w _ r1 w1 Hrun) as Hg.
  unfold nextWithRetries. cbn [nextWithRetries_loop Nat.add].
  unfold mbind at 1, M_bind at 1. rewrite Hrun. unfold_M.
  destruct Hscan as (Htd & Hchunk & Hamr1 & Htx & Hlast).
  rewrite Hamr1, Hamr. cbn [Nat.eqb negb andb]. rewrite Hsel.
  destruct n as [|n].
  - destruct Hctx as [_ Hdone]. rewrite Nat.add_0_r in Hdone.
    rewrite Hdone. cbn.
    eexists _, _, seg, [], (Some (t, c)). split; [reflexivity|]. cbn.
    rewrite Htrace, app_nil_r, <- app_assoc.
    split; [done|]. split; [done|]. split; [done|]. by split.
  - pose proof Hctx as [Hpause _].
    specialize (Hpause 0 ltac:(lia)). rewrite Nat.add_0_r in Hpause.
    rewrite Hpause.
    set (w2 := mkWorld (trace w1 ++ [EvSelect]) (n_getTablet w1)
                 (n_dial w1) (n_stream w1) (n_recv w1) (S (n_select w))).
    destruct (answers_later w w2 ltac:(cbn; lia) Hr Hdial Hrecv)
      as [Hdial2 Hrecv2].
    edestruct (failover_loop_run n fuel 0 r1 w2 q (Some (t, c)))
      as (r' & w' & segs & final & Hloop & Htrace' & Hlen & Hsegs & Hfinal);
      [lia | by rewrite Htd, Hchunk, Hlast | by split | done | done
      | by eapply deadline_after_pause |].
    eexists _, _, seg, segs, final. split; [exact Hloop|].
    rewrite Htrace'. subst w2. cbn [trace n_getTablet n_dial] in *.
    rewrite Htrace, Htx, Hg, Hd in *.
    unfold join_attempts. cbn [map concat].
    rewrite <- !app_assoc.
    split; [done|]. split; [done|]. by repeat split.
Qed.

(** *** The retry loop returns once the retry context is done *)

Lemma getTablet_select {a r w r' w'} :
  getTablet env r w = Done a r' w' -> n_select w' = n_select w.
Proof.
  rewrite getTablet_run. cbv zeta. intros H.
  repeat case_match; by simplify_eq.
Qed.

Lemma startStream_select {a r w r' w'} :
  startStream env r w = Done a r' w' -> n_select w' = n_select w.
Proof.
  rewrite startStream_run. cbv zeta. intros H.
  repeat case_match; by simplify_eq.
Qed.

Lemma deref_Done {A} (p : option A) a r w r' w' :
  deref p r w = Done a r' w' -> p = Some a /\ r' = r /\ w' = w.
Proof. destruct p; [|done]. by intros [= <- <- <-]. Qed.

Lemma nextWithRetries_attempt_select {attempt a r w r' w'} :
  nextWithRetries_attempt env attempt r w = Done a r' w' ->
  n_select w' = n_select w.
Proof.
  unfold nextWithRetries_attempt. intros H.
  apply bind_Done_inv in H as (failover & r1 & w1 & Hfailover & H).
  assert (n_select w1 = n_select w) as Hsel1.
  { destruct (2 <? attempt); [|by injection Hfailover as <- <- <-].
    apply bind_Done_inv in Hfailover as ([retryable err] & r0 & w0 & Hg & Hf).
    apply getTablet_select in Hg.
    repeat case_match; unfold mret, M_ret in *; simplify_eq; done. }
  destruct failover as [x|]; [injection H as <- <- <-; done|].
  apply bind_Done_inv in H as (restart & r2 & w2 & Hrestart & H).
  assert (n_select w2 = n_select w1) as Hsel2.
  { destruct (1 <? attempt); [|by injection Hrestart as <- <- <-].
    apply bind_Done_inv in Hrestart as ([retryable err] & r0 & w0 & Hs & Hf).
    apply startStream_select in Hs.
    destruct err as [e|]; [|by injection Hf as <- <- <-].
    destruct retryable; cbn in Hf; [by injection Hf as <- <- <-|].
    apply bind_Done_inv in Hf as (? & ? & ? & [= <- <- <-] & Hf).
    apply bind_Done_inv in Hf as (? & ? & ? & (_ & -> & ->)%deref_Done & Hf).
    by injection Hf as <- <- <-. }
  destruct restart as [x|]; [injection H as <- <- <-; congruence|].
  apply bind_Done_inv in H as (? & ? & ? & [= <- <- <-] & H).
  apply bind_Done_inv in H as (? & ? & ? & (_ & -> & ->)%deref_Done & H).
  apply bind_Done_inv in H as ([result err] & ? & ? & [= _ <- <-] & H).
  assert (forall (y : AttemptResult) r0 w0,
            (r ← get; _ ← deref (tablet r); mret y) r0 w0 = Done a r' w' ->
            w' = w0) as Hlog.
  { intros y r0 w0 Hx.
    apply bind_Done_inv in Hx as (? & ? & ? & [= <- <- <-] & Hx).
    apply bind_Done_inv in Hx as (? & ? & ? & (_ & -> & ->)%deref_Done & Hx).
    by injection Hx as <- <- <-. }
  destruct err as [e|]; [destruct (is_EOF e)|].
  1,3: apply Hlog in H; subst w'; cbn; congruence.
  injection H as <- <- <-. cbn. congruence.
Qed.

Lemma nextWithRetries_attempt_returns (attempt : nat) :
  returns_or_panics (nextWithRetries_attempt env attempt).
Proof.
  unfold nextWithRetries_attempt, getTablet, startStream, generateQuery_,
    Close.
  repeat returns_step.
Qed.

Lemma nextWithRetries_loop_returns (n : nat) :
  forall (fuel attempt : nat) (r : RestartableResultReader) (w : World),
    n < fuel ->
    (exists e, retryCtx_select env (n_select w + n) = CtxDone e) ->
    nextWithRetries_loop env fuel attempt r w <> OutOfFuel.
Proof.
  induction n as [|n IH]; intros fuel attempt r w Hfuel [e0 He0];
    (destruct fuel as [|fuel]; [lia|]); cbn [nextWithRetries_loop];
    unfold mbind at 1, M_bind at 1;
    destruct (nextWithRetries_attempt env (attempt + 1) r w)
      as [[result err|e] r1 w1| |] eqn:Hrun; try done;
    try (by apply nextWithRetries_attempt_returns in Hrun);
    apply nextWithRetries_attempt_select in Hrun as Hsel;
    unfold_M;
    (destruct ((attempt + 1 =? 2) && negb (allowMultipleRetries r1));
     [done|]); rewrite Hsel.
  - rewrite Nat.add_0_r in He0. rewrite He0. by destruct (is_DeadlineExceeded e0).
  - destruct (retryCtx_select env (n_select w)) as [|e1];
      [|by destruct (is_DeadlineExceeded e1)].
    apply IH; [lia|]. exists e0. cbn [n_select].
    by replace (S (n_select w) + n) with (n_select w + S n) by lia.
Qed.

(** [Next] returns or panics once the retry context is done. *)
Lemma Next_returns (fuel n : nat) (r : RestartableResultReader) (w : World) :
  n < fuel ->
  (exists e, retryCtx_select env (n_select w + n) = CtxDone e) ->
  Next env fuel r w <> OutOfFuel.
Proof.
  intros Hfuel Hdone. unfold Next.
  unfold mbind at 1, M_bind at 1. unfold get at 1.
  unfold mbind at 1, M_bind at 1.
  destruct (deref (output r) r w) as [out r0 w0| |] eqn:Hout;
    [|done|by destruct (output r)].
  apply deref_Done in Hout as (_ & -> & ->).
  unfold mbind at 1, M_bind at 1. unfold call_Recv at 1.
  destruct (stream_Recv env (n_recv w)) as [result err].
  unfold mbind at 1, M_bind at 1.
  match goal with
  | |- context [match ?m ?r1 ?w1 with _ => _ end] =>
      destruct (m r1 w1) as [[result' err'] r2 w2| |] eqn:Hretry
  end; [| done |].
  - destruct result' as [res|]; [|done].
    destruct (0 <? length (Rows res)); [|done].
    unfold_M. by destruct (Rows res !! (length (Rows res) - 1)).
  - exfalso. destruct err as [e|]; [|done].
    destruct (negb (is_EOF e)); [|done].
    unfold mbind at 1, M_bind at 1, get at 1 in Hretry.
    unfold mbind at 1, M_bind at 1 in Hretry.
    destruct (tablet r); [|done]. cbn in Hretry.
    revert Hretry. by apply nextWithRetries_loop_returns with (n := n).
Qed.

(** *** Close *)

Lemma returns_app (evs evs' : list Event) :
  returns (evs ++ evs') = returns evs + returns evs'.
Proof. unfold returns. by rewrite List.filter_app, length_app. Qed.

(** C8, as the code has it.  [Close] without a connection is a no-op,
    and [Close] never changes the reader.  With a connection [c], every
    call closes [c] and gives the tablet back to the provider once more:
    two calls in a row give it back twice. *)
Theorem Close_effect (r : RestartableResultReader) (w : World) :
  Close r w
  = Done tt r
      match conn r with
      | Some c => with_trace w [EvConnClose c; EvReturnTablet (tablet r)]
      | None => w
      end
  /\ (Close ≫= fun _ => Close) r w
     = Done tt r
         match conn r with
         | Some c =>
             with_trace w [EvConnClose c; EvReturnTablet (tablet r);
                           EvConnClose c; EvReturnTablet (tablet r)]
         | None => w
         end
  /\ forall w', (Close ≫= fun _ => Close) r w = Done tt r w' ->
       returns (trace w')
       = returns (trace w) + match conn r with Some _ => 2 | None => 0 end.
Proof.
  assert ((Close ≫= fun _ => Close) r w
          = Done tt r
              match conn r with
              | Some c =>
                  with_trace w [EvConnClose c; EvReturnTablet (tablet r);
                                EvConnClose c; EvReturnTablet (tablet r)]
              | None => w
              end) as Htwice.
  { unfold mbind, M_bind. rewrite !Close_run.
    destruct (conn r) as [c|]; [|reflexivity].
    unfold with_trace. cbn. by rewrite <- app_assoc. }
  split; [apply Close_run|]. split; [exact Htwice|].
  intros w' Hrun. rewrite Htwice in Hrun. injection Hrun as <-.
  destruct (conn r) as [c|]; cbn [with_trace trace]; [|lia].
  by rewrite returns_app.
Qed.

End ReaderProperties.

(** C8, as the spec has it, fails: a second [Close] on a reader that holds a
    connection is not a no-op, it gives the tablet back a second time. *)
Lemma Close_twice_is_not_once :
  let r := SampleRun.streaming true in
  (Close ≫= fun _ => Close) r world0 <> Close r world0
  /\ exists w1 w2,
       Close r world0 = Done tt r w1
       /\ (Close ≫= fun _ => Close) r world0 = Done tt r w2
       /\ returns (trace w1) = 1 /\ returns (trace w2) = 2.
Proof.
  split; [discriminate|].
  eexists _, _. by repeat split.
Qed.

(** ** The fan-out *)

Section VDiffProperties.
Context {VDiffOptions VDiffResponse : Type}.
Variable wr : WranglerEnv VDiffOptions VDiffResponse.

Lemma VDiff2_callback_stores (req : VDiffRequest VDiffOptions)
    (target : MigrationTarget) (output : VDiffOutput VDiffOptions VDiffResponse) :
  Responses _ _ (VDiff2_callback _ _ wr req target output).1
  = <[ShardName target := (tmc_VDiff _ _ wr (primary_Tablet target) req).1]>
      (Responses _ _ output)
  /\ (VDiff2_callback _ _ wr req target output).2
     = (tmc_VDiff _ _ wr (primary_Tablet target) req).2.
Proof.
  unfold VDiff2_callback.
  by destruct (tmc_VDiff _ _ wr (primary_Tablet target) req).
Qed.

(** After the fan-out, the entry of a shard name is the response of the
    RPC to a target of that name, when there is one, and is as before
    otherwise. *)
Lemma ForAllTargets_Responses (req : VDiffRequest VDiffOptions)
    (ts : TrafficSwitcher) (shard : string) :
  forall output : VDiffOutput VDiffOptions VDiffResponse,
    let after := (ForAllTargets ts (VDiff2_callback _ _ wr req) output).1 in
    (exists target,
        target ∈ ts /\ ShardName target = shard
        /\ Responses _ _ after !! shard
           = Some (tmc_VDiff _ _ wr (primary_Tablet target) req).1)
    \/ ((forall target, target ∈ ts -> ShardName target <> shard)
        /\ Responses _ _ after !! shard = Responses _ _ output !! shard).
Proof.
  induction ts as [|t ts IH]; intros output; cbn zeta.
  - right. split; [|reflexivity]. intros target Hin. by apply elem_of_nil in Hin.
  - cbn [ForAllTargets].
    pose proof (VDiff2_callback_stores req t output) as [Hstore _].
    destruct (VDiff2_callback _ _ wr req t output) as [output1 err1].
    specialize (IH output1).
    destruct (ForAllTargets ts (VDiff2_callback _ _ wr req) output1)
      as [output2 errs].
    cbn [fst] in *.
    destruct IH as [(target & Hin & Hname & Hlookup)|[Hnone Hlookup]].
    + left. exists target. split; [by apply list_elem_of_further|done].
    + rewrite Hlookup, Hstore.
      destruct (decide (ShardName t = shard)) as [Heq|Hne].
      * left. exists t. split; [apply list_elem_of_here|].
        split; [done|]. by rewrite Heq, lookup_insert_eq.
      * right. split; [|by rewrite lookup_insert_ne].
        intros target [->|Hin]%elem_of_cons; [done|by apply Hnone].
Qed.

(** C10.  The callback stores the response of the RPC under the shard
    name whatever error the RPC returns, so after the fan-out every
    target has an entry in the map: the response, possibly nil, of the
    RPC to a target of its shard name. *)
Theorem VDiff2_fanout_entry (req : VDiffRequest VDiffOptions)
    (ts : TrafficSwitcher) (target : MigrationTarget) :
  target ∈ ts ->
  (forall output : VDiffOutput VDiffOptions VDiffResponse,
      Responses _ _ (VDiff2_callback _ _ wr req target output).1
        !! ShardName target
      = Some (tmc_VDiff _ _ wr (primary_Tablet target) req).1
      /\ (VDiff2_callback _ _ wr req target output).2
         = (tmc_VDiff _ _ wr (primary_Tablet target) req).2)
  /\ exists target',
       target' ∈ ts /\ ShardName target' = ShardName target
       /\ Responses _ _ (VDiff2_fanout _ _ wr req ts) !! ShardName target
          = Some (tmc_VDiff _ _ wr (primary_Tablet target') req).1.
Proof.
  intros Hin. split.
  - intros output.
    destruct (VDiff2_callback_stores req target output) as [-> ->].
    by rewrite lookup_insert_eq.
  - unfold VDiff2_fanout.
    pose proof (ForAllTargets_Responses req ts (ShardName target)
                  (mkVDiffOutput _ _ req ∅ None)) as Hfan.
    cbn zeta in Hfan.
    destruct (ForAllTargets ts (VDiff2_callback _ _ wr req)
                (mkVDiffOutput _ _ req ∅ None)) as [output errs].
    cbn [fst Responses] in *.
    destruct Hfan as [Hsome|[Hnone _]]; [done|].
    by destruct (Hnone target Hin).
Qed.

(** Once the traffic switcher is built, [VDiff2] returns a nil error,
    whatever the per-shard RPCs returned. *)
Lemma VDiff2_error_after_build
    (keyspace workflowName command subCommand uuid : string)
    (options : option VDiffOptions) :
  (buildTrafficSwitcher _ _ wr keyspace workflowName).2 = None ->
  (VDiff2 _ _ wr keyspace workflowName command subCommand uuid options).2
  = None.
Proof.
  unfold VDiff2.
  destruct (buildTrafficSwitcher _ _ wr keyspace workflowName) as [ts err].
  cbn [snd]. intros ->. by case_match.
Qed.

End VDiffProperties.

(** C7 fails on the code.  With two target shards and a failing VDiff RPC
    to the second one, the fan-out records the error of that shard in
    [output.Err], and [VDiff2] returns a nil output and a nil error: the
    error it returns is the one of [buildTrafficSwitcher]. *)
Theorem VDiff2_returns_nil_error :
  let req := mkVDiffRequest unit "ks" "wf" "show" "last" None "" in
  Err _ _ (VDiff2_fanout _ _ SampleRun.wrangler req
             [SampleRun.target_a; SampleRun.target_b])
  = Some (Failure "rpc failed")
  /\ VDiff2 _ _ SampleRun.wrangler "ks" "wf" "show" "last" "" None
     = (None, None).
Proof. split; reflexivity. Qed.

(** ** The properties on the sample collaborators *)

Section SampleProperties.
Import Sample SampleRun.

Lemma greaterThanTupleWhereClause_emits_witness :
  length ["id"] <= length [VInt "10"]
  /\ greaterThanTupleWhereClause (Sql := sql) ["region"; "id"] [VText "us"; VInt "10"]
     = Some ["`region`>='us'"; "(`region`,`id`)>('us',10)"].
Proof.
  split; [cbn; lia|].
  apply (greaterThanTupleWhereClause_emits (Sql := sql) "region" ["id"] (VText "us")
           [VInt "10"]).
  cbn; lia.
Defined.

Lemma greaterThanTupleWhereClause_total_witness :
  (1 <= 2 -> 2 <= 2 ->
   is_Some (greaterThanTupleWhereClause (Sql := sql) ["a"; "b"] [VInt "1"; VInt "2"]))
  /\ (1 < 2 -> greaterThanTupleWhereClause (Sql := sql) ["a"; "b"] [VInt "1"] = None).
Proof.
  destruct (greaterThanTupleWhereClause_total (Sql := sql) ["a"; "b"] [VInt "1"; VInt "2"])
    as [Hsome _].
  destruct (greaterThanTupleWhereClause_total (Sql := sql) ["a"; "b"] [VInt "1"])
    as [_ Hnone].
  split; [exact Hsome | exact Hnone].
Defined.

Lemma generateQuery_bounds_witness :
  PrimaryKeyColumns table = ["key"]
  /\ IsNull (chunk_start range) = false
  /\ IsNull (chunk_end range) = false
  /\ covers (Sql := sql) ["key"] (Some [VInt "7"; VText "m"])
  /\ generateQuery (Sql := sql) table range (Some [VInt "7"; VText "m"]) = Some resumed.
Proof.
  assert (covers (Sql := sql) ["key"] (Some [VInt "7"; VText "m"])) as Hcov
    by (cbn; lia).
  split; [reflexivity|]. split; [reflexivity|]. split; [reflexivity|].
  split; [exact Hcov|].
  exact (generateQuery_bounds (Sql := sql) table range (Some [VInt "7"; VText "m"])
           "key" [] eq_refl eq_refl eq_refl Hcov).
Defined.

Lemma Next_lastRow_witness :
  exists r' w',
    Next env_blip 1 (streaming true) world0
    = Done (Some (batch ["8"; "9"]), None) r' w'
    /\ lastRow r' = Some [VInt "9"; VText "m"].
Proof.
  eexists _, _. split; [reflexivity|].
  exact (Next_lastRow env_blip 1 (streaming true) world0
           (Some (batch ["8"; "9"])) None _ _ eq_refl).
Defined.

Lemma dial_succeeds_down : dial_succeeds env_down world0.
Proof. intros i t _. by eexists. Qed.

Lemma receive_fails_down : receive_fails env_down world0.
Proof. by intros i _. Qed.

Lemma deadline_after_down : deadline_after env_down world0 3.
Proof.
  split; [|reflexivity].
  intros [|[|[|j]]] Hj; [reflexivity..|lia].
Qed.

Lemma nextWithRetries_failover_pattern_witness :
  allowMultipleRetries (streaming true) = true
  /\ dial_succeeds env_down world0 /\ receive_fails env_down world0
  /\ deadline_after env_down world0 3 /\ 3 < 5
  /\ exists r' w' seg2 segs final,
       nextWithRetries env_down 5 (streaming true) world0
       = Done (None, Some (Wrap context_DeadlineExceeded
                 "failed to restart the streaming connection after retrying"))
           r' w'
       /\ trace w' = trace world0 ++ join_attempts (seg2 :: segs)
       /\ restart_on 7 tablet_a resumed 0 seg2
       /\ length segs = 3
       /\ failovers env_down resumed 0 (Some (tablet_a, 7)) 0 0 segs final
       /\ holds r' final.
Proof.
  pose proof dial_succeeds_down as Hdial.
  pose proof receive_fails_down as Hrecv.
  pose proof deadline_after_down as Hctx.
  assert (3 < 5) as Hfuel by lia.
  split; [reflexivity|]. split; [exact Hdial|]. split; [exact Hrecv|].
  split; [exact Hctx|]. split; [exact Hfuel|].
  exact (nextWithRetries_failover_pattern env_down 5 3 (streaming true)
           world0 tablet_a 7 resumed eq_refl eq_refl eq_refl eq_refl
           Hdial Hrecv Hctx Hfuel).
Defined.

Lemma nextWithRetries_single_retry_witness :
  allowMultipleRetries (streaming false) = false
  /\ restart_fails env_down (n_recv world0) /\ 1 <= 1
  /\ exists e r' w' seg,
       nextWithRetries env_down 1 (streaming false) world0
       = Done (None, Some (Wrap e
                 "first retry to restart the streaming query on the same tablet failed"))
           r' w'
       /\ trace w' = trace world0 ++ seg
       /\ restart_on 7 tablet_a resumed 0 seg
       /\ tablet r' = Some tablet_a /\ conn r' = Some 7.
Proof.
  assert (restart_fails env_down (n_recv world0)) as Hfail by done.
  assert (1 <= 1) as Hfuel by lia.
  split; [reflexivity|]. split; [exact Hfail|]. split; [exact Hfuel|].
  exact (nextWithRetries_single_retry env_down 1 (streaming false) world0
           tablet_a 7 resumed eq_refl eq_refl eq_refl eq_refl Hfail Hfuel).
Defined.

Lemma NewRestartableResultReader_attempts_witness :
  2 <= 2
  /\ NewRestartableResultReader env_late 2 table range true world0
     = construction_spec env_late (fresh table range true 0) world0
  /\ NewRestartableResultReader env_late 2 table range true world0
     <> OutOfFuel.
Proof.
  assert (2 <= 2) as Hfuel by lia.
  destruct (NewRestartableResultReader_attempts env_late 2 table range true
              world0 Hfuel) as (Hspec & Hreturns & _).
  split; [exact Hfuel|]. split; [exact Hspec | exact Hreturns].
Defined.

Lemma VDiff2_fanout_entry_witness :
  let req := mkVDiffRequest unit "ks" "wf" "show" "last" None "" in
  target_b ∈ [target_a; target_b]
  /\ exists target',
       target' ∈ [target_a; target_b]
       /\ ShardName target' = "80-"
       /\ Responses _ _ (VDiff2_fanout _ _ wrangler req [target_a; target_b])
            !! "80-"
          = Some (tmc_VDiff _ _ wrangler (primary_Tablet target') req).1.
Proof.
  intros req.
  assert (target_b ∈ [target_a; target_b]) as Hin
    by (apply list_elem_of_further, list_elem_of_here).
  split; [exact Hin|].
  exact (proj2 (VDiff2_fanout_entry wrangler req [target_a; target_b]
                  target_b Hin)).
Defined.

(** *** Runs *)

Example greaterThanTupleWhereClause_one :
  greaterThanTupleWhereClause (Sql := sql) ["a"] [VInt "1"] = Some ["`a`>1"].
Proof. reflexivity. Qed.

Example greaterThanTupleWhereClause_three :
  greaterThanTupleWhereClause (Sql := sql) ["a"; "b"; "c"] [VInt "1"; VInt "2"; VInt "3"]
  = Some ["`a`>=1"; "(`a`,`b`,`c`)>(1,2,3)"].
Proof. reflexivity. Qed.

Example greaterThanTupleWhereClause_no_value :
  greaterThanTupleWhereClause (Sql := sql) ["a"] [] = None.
Proof. reflexivity. Qed.

Example generateQuery_initial :
  generateQuery (Sql := sql) table range None
  = Some "SELECT `key`,`msg` FROM `t` WHERE `key`>=5 AND `key`<50 ORDER BY `key`".
Proof. reflexivity. Qed.

Example generateQuery_unbounded :
  generateQuery (Sql := sql) table (mkChunk VNull VNull) None
  = Some "SELECT `key`,`msg` FROM `t` ORDER BY `key`".
Proof. reflexivity. Qed.

(** Construction with a provider that has no tablet at first: two
    attempts, and a reader on [tablet_b]. *)
Example construction_second_attempt :
  exists r w,
    NewRestartableResultReader env_late 5 table range true world0
    = Done (Some r, None) r w
    /\ tablet r = Some tablet_b
    /\ trace w = [EvTpGetTablet; EvTpGetTablet; EvDial tablet_b;
                  EvExecute 10 tablet_b
                    "SELECT `key`,`msg` FROM `t` WHERE `key`>=5 AND `key`<50 ORDER BY `key`"
                    0 0;
                  EvRecv 0].
Proof. eexists _, _. by repeat split. Qed.

(** Construction with receives that always fail: two attempts, then an
    error and no reader. *)
Example construction_fails :
  exists e r w,
    NewRestartableResultReader env_down 5 table range true world0
    = Done (None, Some e) r w
    /\ n_getTablet w = 2.
Proof. eexists _, _, _. by repeat split. Qed.

(** The calls of the retry protocol when every receive fails: the restart
    on the tablet held, then three failovers, until the deadline. *)
Example retries_until_deadline :
  exists res r w,
    nextWithRetries env_down 5 (streaming true) world0 = Done res r w
    /\ trace w
       = [EvExecute 7 tablet_a resumed 0 0; EvRecv 0; EvSelect;
          EvConnClose 7; EvReturnTablet (Some tablet_a); EvTpGetTablet;
          EvDial tablet_b; EvExecute 10 tablet_b resumed 0 1; EvRecv 1;
          EvSelect;
          EvConnClose 10; EvReturnTablet (Some tablet_b); EvTpGetTablet;
          EvSelect;
          EvTpGetTablet; EvDial tablet_b; EvExecute 11 tablet_b resumed 0 2;
          EvRecv 2; EvSelect].
Proof. vm_compute. eexists _, _, _. by split. Qed.

(** What the failover attempts are when the provider gives [tablet_b],
    then nothing, then [tablet_b] again: the first gives back the tablet
    and the connection held before and restarts on [tablet_b] over the
    connection dialled first, the second gives these back and gets
    nothing, the third restarts on [tablet_b] over the connection dialled
    second. *)
Example failovers_down_calls (segs : list (list Event))
    (final : option (Tablet * Conn)) :
  failovers env_down resumed 0 (Some (tablet_a, 7)) 0 0 segs final ->
  length segs = 3 ->
  exists restart1 restart3,
    segs = [ [EvConnClose 7; EvReturnTablet (Some tablet_a); EvTpGetTablet;
              EvDial tablet_b] ++ restart1;
             [EvConnClose 10; EvReturnTablet (Some tablet_b); EvTpGetTablet];
             [EvTpGetTablet; EvDial tablet_b] ++ restart3 ]
    /\ restart_on 10 tablet_b resumed 0 restart1
    /\ restart_on 11 tablet_b resumed 0 restart3
    /\ final = Some (tablet_b, 11).
Proof.
  intros Hsegs Hlen.
  destruct segs as [|seg1 [|seg2 [|seg3 [|]]]]; try done.
  destruct Hsegs as (held1 & Hseg1 & held2 & Hseg2 & held3 & Hseg3 & ->).
  destruct Hseg1 as (c1 & restart1 & [= <-] & -> & Hrestart1 & ->).
  destruct Hseg2 as [-> ->].
  destruct Hseg3 as (c3 & restart3 & [= <-] & -> & Hrestart3 & ->).
  by exists restart1, restart3.
Qed.

(** The reader closed twice gives its tablet back twice. *)
Example close_twice_trace :
  exists w,
    (Close ≫= fun _ => Close) (streaming true) world0
    = Done tt (streaming true) w
    /\ trace w = [EvConnClose 7; EvReturnTablet (Some tablet_a);
                  EvConnClose 7; EvReturnTablet (Some tablet_a)].
Proof. eexists. by split. Qed.

(** The map of the fan-out has the entry of the shard whose RPC failed,
    with a nil response. *)
Example fanout_failed_entry :
  let req := mkVDiffRequest unit "ks" "wf" "show" "last" None "" in
  Responses _ _ (VDiff2_fanout _ _ wrangler req [target_a; target_b])
    !! "80-" = Some None.
Proof. vm_compute. reflexivity. Qed.

End SampleProperties.
